(** * gen-rss.js: post index and RSS feed generation

    A shallow embedding of [src/gen-rss.js]: the directory scan
    ([scanDir]), the metadata extraction ([readPostMetadata]) and the
    assembly of the published post list in [main] (filter by date, sort by
    date, serialise), followed by the properties of the build script.

    JavaScript values are modelled as the script uses them: strings as
    [string] (a sequence of code units), a [Date] by its time value (an
    integer number of milliseconds, or NaN for an invalid date), arrays as
    lists, [undefined] as [None], and a thrown exception as [Throw]. *)

From Stdlib Require Import ZArith List String Ascii Bool Lia.
From Stdlib Require Import Sorting.Sorted Sorting.Permutation.
Import ListNotations.

Set Warnings "-register-all".

Local Open Scope string_scope.
Local Open Scope Z_scope.

(* ================================================================== *)
(** ** JavaScript built-ins used by the script *)
(* ================================================================== *)

(** Exceptions that abort the script. *)
Inductive exn : Type :=
| TypeError                 (* property read on [undefined] *)
| RangeError                (* call stack exhausted *)
| CompileError (path : string).   (* thrown by the MDX/Babel toolchain *)

Inductive result (A : Type) : Type :=
| Ok (a : A)
| Throw (e : exn).
Arguments Ok {A} a.
Arguments Throw {A} e.

Definition bind {A B : Type} (r : result A) (k : A -> result B) : result B :=
  match r with
  | Ok a => k a
  | Throw e => Throw e
  end.

Notation "x <- r ;; k" := (bind r (fun x => k))
  (at level 61, r at next level, right associativity).

(** [array.map(f)] for a callback that may throw: elements are visited from
    left to right and the first exception aborts the whole call. The
    callback also receives the index, as [Array.prototype.map] passes it. *)
Fixpoint Array_map_from {A B : Type} (f : nat -> A -> result B)
         (i : nat) (l : list A) : result (list B) :=
  match l with
  | [] => Ok []
  | x :: l' =>
      y <- f i x ;;
      ys <- Array_map_from f (S i) l' ;;
      Ok (y :: ys)
  end.

Definition Array_map {A B : Type} (f : nat -> A -> result B) (l : list A)
  : result (list B) := Array_map_from f 0%nat l.

(** A [Date] object: its time value is an integer count of milliseconds
    since the epoch, or NaN ("Invalid Date"). *)
Inductive Date : Type :=
| ValidDate (t : Z)
| InvalidDate.

(** [d.valueOf()]: [None] is NaN. *)
Definition valueOf (d : Date) : option Z :=
  match d with
  | ValidDate t => Some t
  | InvalidDate => None
  end.

(** [a <= b] on dates: both sides are converted to numbers, and every
    comparison with NaN is false. *)
Definition Date_le (a b : Date) : bool :=
  match valueOf a, valueOf b with
  | Some x, Some y => x <=? y
  | _, _ => false
  end.

(** [a - b] on dates; [None] is NaN. Only the sign of the result is used
    (by the sort), and the sign of the floating-point difference of two
    time values is the sign of their integer difference. *)
Definition Date_sub (a b : Date) : option Z :=
  match valueOf a, valueOf b with
  | Some x, Some y => Some (x - y)
  | _, _ => None
  end.

(** [SortCompare] of ECMAScript: a comparator result of NaN counts as 0. *)
Definition SortCompare {A : Type} (comparefn : A -> A -> option Z)
           (x y : A) : Z :=
  match comparefn x y with
  | Some v => v
  | None => 0
  end.

(** [Array.prototype.sort(comparefn)]. The language requires the sort to be
    stable; it is modelled by a stable insertion sort: [x] goes before [y]
    unless the comparator says that [x] sorts after [y]. *)
Fixpoint sort_insert {A : Type} (comparefn : A -> A -> option Z)
         (x : A) (l : list A) : list A :=
  match l with
  | [] => [x]
  | y :: l' =>
      if SortCompare comparefn x y <=? 0
      then x :: y :: l'
      else y :: sort_insert comparefn x l'
  end.

Fixpoint Array_sort {A : Type} (comparefn : A -> A -> option Z)
         (l : list A) : list A :=
  match l with
  | [] => []
  | x :: l' => sort_insert comparefn x (Array_sort comparefn l')
  end.

(** The default comparator of [sort()]: strings are compared code unit by
    code unit. *)
Definition string_compare_default (x y : string) : option Z :=
  match String.compare x y with
  | Lt => Some (-1)
  | Eq => Some 0
  | Gt => Some 1
  end.

(** [s.endsWith(suffix)]. *)
Definition endsWith (s suffix : string) : bool :=
  (String.length suffix <=? String.length s)%nat &&
  String.eqb
    (substring (String.length s - String.length suffix)
               (String.length suffix) s)
    suffix.

(** A string is truthy iff it is not empty. *)
Definition truthy (s : string) : bool :=
  match s with
  | EmptyString => false
  | String _ _ => true
  end.

(** [s.replace(/\\/, '/')]: without the [g] flag, only the first backslash
    is replaced. *)
Fixpoint replace_backslash (s : string) : string :=
  match s with
  | EmptyString => EmptyString
  | String c r =>
      if Ascii.eqb c "\"%char
      then String "/"%char r
      else String c (replace_backslash r)
  end.

(** What follows the prefix [p] in [s], when [s] starts with [p]. *)
Fixpoint strip_prefix (p s : string) : option string :=
  match p with
  | EmptyString => Some s
  | String a p' =>
      match s with
      | EmptyString => None
      | String b s' => if Ascii.eqb a b then strip_prefix p' s' else None
      end
  end.

(** [s.replace(/^pages/, '')]: the match is anchored at the start. *)
Definition replace_pages (s : string) : string :=
  match strip_prefix "pages" s with
  | Some r => r
  | None => s
  end.

(** [s.replace(/\.mdx?$/, '')]: the leftmost position from which the rest
    of the string is exactly [.md] or [.mdx] is where the match starts. *)
Fixpoint replace_mdx (s : string) : string :=
  match s with
  | EmptyString => EmptyString
  | String c r =>
      if String.eqb s ".mdx" || String.eqb s ".md"
      then EmptyString
      else String c (replace_mdx r)
  end.

(** [path.join(dir, name)] for a normalised directory path and an entry
    name returned by [readdirSync] (POSIX separator). *)
Definition path_join (dir name : string) : string :=
  dir ++ "/" ++ name.

(* ================================================================== *)
(** ** Data of the script *)
(* ================================================================== *)

(** The [meta] export of a compiled post: every field is optional. *)
Record Meta : Type := mkMeta {
  meta_title : option string;
  meta_description : option string;
  meta_date : option string
}.

(** A node of the markdown syntax tree handed over by the remark plugin. *)
Inductive node : Type :=
| Node (type_ : string) (depth : option Z) (value : option string)
       (children : list node).

Definition type_ (x : node) : string :=
  match x with Node t _ _ _ => t end.
Definition depth (x : node) : option Z :=
  match x with Node _ d _ _ => d end.
Definition value (x : node) : option string :=
  match x with Node _ _ v _ => v end.
Definition children (x : node) : list node :=
  match x with Node _ _ _ c => c end.

(** The object returned by [readPostMetadata]. [title] and [description]
    are [undefined] when they come from a tree node without a [value]. *)
Record PostRecord : Type := mkPost {
  filePath : string;
  urlPath : string;
  title : option string;
  date : Date;
  description : option string
}.

(** What [fs.statSync] can report about a directory entry. *)
Inductive fsnode : Type :=
| RegularFile
| Directory (entries : list (string * fsnode))
| Special.   (* neither [isFile()] nor [isDirectory()] *)

Definition isFile (st : fsnode) : bool :=
  match st with RegularFile => true | _ => false end.

(** [fs.statSync] of the entry [name] of a directory that was just listed. *)
Fixpoint statSync (entries : list (string * fsnode)) (name : string)
  : option fsnode :=
  match entries with
  | [] => None
  | (n, st) :: rest => if String.eqb n name then Some st else statSync rest name
  end.

(** [fs.readdirSync]: the entry names, in the order the system lists them. *)
Definition readdirSync (entries : list (string * fsnode)) : list string :=
  map fst entries.

(** Nesting depth of a tree: a bound on the recursion of [scan]. *)
Fixpoint height (st : fsnode) : nat :=
  match st with
  | Directory entries =>
      S (fold_right (fun e h => Nat.max (height (snd e)) h) 0%nat entries)
  | _ => 0%nat
  end.

(* ================================================================== *)
(** ** scanDir *)
(* ================================================================== *)

(** The callback that [scan] maps over the sorted file names. [scan] is
    the recursive call, and the accumulator is the array [mdxFiles] the
    callback pushes to ([None] once a call has failed). *)
Definition scan_callback
           (scan : string -> list (string * fsnode) -> list string
                   -> option (list string))
           (extension dirPath : string) (entries : list (string * fsnode))
           (acc : option (list string)) (filename : string)
  : option (list string) :=
  match acc with
  | None => None
  | Some mdxFiles =>
      let filePath := path_join dirPath filename in
      match statSync entries filename with
      | None => None
      | Some st =>
          let mdxFiles :=
            if isFile st && endsWith filePath extension
            then (mdxFiles ++ [filePath])%list
            else mdxFiles in
          match st with
          | Directory sub => scan filePath sub mdxFiles
          | _ => Some mdxFiles
          end
      end
  end.

(** The inner [scan] closure: the names of the directory are sorted, then
    visited in that order. The recursion on sub-directories is bounded by
    [fuel]. *)
Fixpoint scan (fuel : nat) (extension : string) (dirPath : string)
         (entries : list (string * fsnode)) (mdxFiles : list string)
  : option (list string) :=
  match fuel with
  | O => None
  | S fuel' =>
      let filenames := Array_sort string_compare_default (readdirSync entries) in
      fold_left (scan_callback (scan fuel' extension) extension dirPath entries)
                filenames (Some mdxFiles)
  end.

(** [scanDir(dirPath, extension)] on the directory whose content is
    [entries]. The call stack gets as deep as the tree is nested. *)
Definition scanDir (dirPath extension : string)
           (entries : list (string * fsnode)) : option (list string) :=
  scan (height (Directory entries)) extension dirPath entries [].

(* ================================================================== *)
(** ** readPostMetadata *)
(* ================================================================== *)

(** [blocks[0].children[0].value]: reading [children] of a missing block,
    or [value] of a missing child, throws. *)
Definition first_child_value (blocks : list node) : result (option string) :=
  match blocks with
  | [] => Throw TypeError
  | x :: _ =>
      match children x with
      | [] => Throw TypeError
      | c :: _ => Ok (value c)
      end
  end.

Definition is_heading1 (x : node) : bool :=
  String.eqb (type_ x) "heading" &&
  match depth x with Some d => d =? 1 | None => false end.

Definition is_paragraph (x : node) : bool :=
  String.eqb (type_ x) "paragraph".

(** [meta && meta.f]: the field, when the object is there and the field is
    a non-empty string. *)
Definition truthy_field (meta : option Meta) (f : Meta -> option string)
  : option string :=
  match meta with
  | None => None
  | Some m =>
      match f m with
      | Some s => if truthy s then Some s else None
      | None => None
      end
  end.

Definition urlPath_of (postPath : string) : string :=
  replace_mdx (replace_pages (replace_backslash postPath)).

Section Extraction.

(** [requireMDXFileSync]: the MDX toolchain, which reads and compiles a
    post and returns its [meta] export and its syntax tree. *)
Variable requireMDXFileSync : string -> result (option Meta * node).

(** [new Date(string)]: [None] when the string is not recognised as a
    date. The formats accepted beyond ISO 8601 depend on the engine. *)
Variable Date_parse : string -> option Z.

(** [new Date(meta.date)]; [new Date(undefined)] is an invalid date. *)
Definition new_Date_from (d : option string) : Date :=
  match d with
  | None => InvalidDate
  | Some s =>
      match Date_parse s with
      | Some t => ValidDate t
      | None => InvalidDate
      end
  end.

(** [clock] is what [new Date()] reads if it is evaluated during this
    call. *)
Definition readPostMetadata (clock : Z) (postPath : string)
  : result PostRecord :=
  ma <- requireMDXFileSync postPath ;;
  let '(meta, ast) := ma in
  title <-
    match truthy_field meta meta_title with
    | Some t => Ok (Some t)
    | None => first_child_value (filter is_heading1 (children ast))
    end ;;
  description <-
    match truthy_field meta meta_description with
    | Some d => Ok (Some d)
    | None => first_child_value (filter is_paragraph (children ast))
    end ;;
  Ok {| filePath := postPath;
        urlPath := urlPath_of postPath;
        title := title;
        date := match meta with
                | Some m => new_Date_from (meta_date m)
                | None => ValidDate clock
                end;
        description := description |}.

End Extraction.

(* ================================================================== *)
(** ** main: filter, sort *)
(* ================================================================== *)

(** [function(a, b){return b.date - a.date}]. *)
Definition by_date_desc (a b : PostRecord) : option Z :=
  Date_sub (date b) (date a).

(** Lines 97-99 of [main], from the extracted records on: keep the posts
    with [post.date <= now], then sort them in place. *)
Definition assemble (records : list PostRecord) (now : Date)
  : list PostRecord :=
  Array_sort by_date_desc
    (filter (fun post => Date_le (date post) now) records).

(* ================================================================== *)
(** ** Dates as text *)
(* ================================================================== *)

Definition msPerDay : Z := 86400000.

(** Year, month (1-12) and day of the month of a day number counted from
    1970-01-01, in the proleptic Gregorian calendar that [Date] uses. *)
Definition civil_from_days (z : Z) : Z * Z * Z :=
  let z := z + 719468 in
  let era := z / 146097 in
  let doe := z - era * 146097 in
  let yoe := (doe - doe / 1460 + doe / 36524 - doe / 146096) / 365 in
  let y := yoe + era * 400 in
  let doy := doe - (365 * yoe + yoe / 4 - yoe / 100) in
  let mp := (5 * doy + 2) / 153 in
  let d := doy - (153 * mp + 2) / 5 + 1 in
  let m := if mp <? 10 then mp + 3 else mp - 9 in
  (if m <=? 2 then y + 1 else y, m, d).

Definition days_from_civil (y m d : Z) : Z :=
  let y := if m <=? 2 then y - 1 else y in
  let era := y / 400 in
  let yoe := y - era * 400 in
  let doy := (153 * (if 2 <? m then m - 3 else m + 9) + 2) / 5 + d - 1 in
  let doe := yoe * 365 + yoe / 4 - yoe / 100 + doy in
  era * 146097 + doe - 719468.

Definition digit_char (n : Z) : ascii :=
  ascii_of_nat (48 + Z.to_nat (n mod 10)).

(** [n] in decimal, on exactly [width] digits. *)
Fixpoint digits (width : nat) (n : Z) : string :=
  match width with
  | O => EmptyString
  | S w => digits w (n / 10) ++ String (digit_char n) EmptyString
  end.

(** [Date.prototype.toISOString] for a valid time value:
    [YYYY-MM-DDTHH:mm:ss.sssZ], the year on six signed digits when it is
    outside 0-9999. *)
Definition toISOString (t : Z) : string :=
  let '(y, m, d) := civil_from_days (t / msPerDay) in
  let ms := t mod msPerDay in
  let year :=
    if (0 <=? y) && (y <=? 9999) then digits 4 y
    else if y <? 0 then "-" ++ digits 6 (- y)
    else "+" ++ digits 6 y in
  year ++ "-" ++ digits 2 m ++ "-" ++ digits 2 d ++ "T" ++
  digits 2 (ms / 3600000) ++ ":" ++ digits 2 (ms / 60000 mod 60) ++ ":" ++
  digits 2 (ms / 1000 mod 60) ++ "." ++ digits 3 (ms mod 1000) ++ "Z".

Definition digit_value (c : ascii) : option Z :=
  let n := Z.of_nat (nat_of_ascii c) in
  if (48 <=? n) && (n <=? 57) then Some (n - 48) else None.

Fixpoint number_of (acc : Z) (cs : list ascii) : option Z :=
  match cs with
  | [] => Some acc
  | c :: cs' =>
      match digit_value c with
      | Some v => number_of (10 * acc + v) cs'
      | None => None
      end
  end.

(** The one date format every engine's [new Date(string)] must accept in
    full, [YYYY-MM-DDTHH:mm:ss.sssZ]; any other text is rejected here. It
    stands in for the engine's parser where an example needs one. *)
Definition Date_parse_ISO (s : string) : option Z :=
  match list_ascii_of_string s with
  | [y1; y2; y3; y4; "-"; m1; m2; "-"; d1; d2; "T";
     h1; h2; ":"; n1; n2; ":"; s1; s2; "."; f1; f2; f3; "Z"]%char =>
      match number_of 0 [y1; y2; y3; y4], number_of 0 [m1; m2],
            number_of 0 [d1; d2], number_of 0 [h1; h2],
            number_of 0 [n1; n2], number_of 0 [s1; s2],
            number_of 0 [f1; f2; f3] with
      | Some y, Some m, Some d, Some h, Some n, Some sec, Some f =>
          let day := days_from_civil y m d in
          if (1 <=? m) && (m <=? 12) && (1 <=? d) && (h <=? 23)
             && (n <=? 59) && (sec <=? 59)
             && (let '(y', m', d') := civil_from_days day in
                 (y' =? y) && (m' =? m) && (d' =? d))
          then Some (day * msPerDay + h * 3600000 + n * 60000
                     + sec * 1000 + f)
          else None
      | _, _, _, _, _, _, _ => None
      end
  | _ => None
  end.

(* ================================================================== *)
(** ** JSON.stringify *)
(* ================================================================== *)

(** The values that reach [JSON.stringify] and come back from parsing. *)
Inductive JSValue : Type :=
| JUndefined
| JNull
| JString (s : string)
| JDate (d : Date)
| JArray (items : list JSValue)
| JObject (props : list (string * JSValue)).

(** [obj[key]]: a missing property reads as [undefined]. *)
Fixpoint get_prop (props : list (string * JSValue)) (key : string) : JSValue :=
  match props with
  | [] => JUndefined
  | (k, v) :: rest => if String.eqb k key then v else get_prop rest key
  end.

Definition field (key : string) (v : JSValue) : JSValue :=
  match v with
  | JObject props => get_prop props key
  | _ => JUndefined
  end.

(** A line feed, and a double quote. *)
Definition LF : string := String "010"%char EmptyString.
Definition DQ : string := String "034"%char EmptyString.

Definition hex_char (n : nat) : ascii :=
  if (n <? 10)%nat then ascii_of_nat (48 + n) else ascii_of_nat (87 + n).

(** One code unit inside a JSON string literal. *)
Definition quote_char (c : ascii) : string :=
  let n := nat_of_ascii c in
  if (n =? 8)%nat then "\b"
  else if (n =? 9)%nat then "\t"
  else if (n =? 10)%nat then "\n"
  else if (n =? 12)%nat then "\f"
  else if (n =? 13)%nat then "\r"
  else if (n =? 34)%nat then String "\" (String c EmptyString)
  else if (n =? 92)%nat then "\\"
  else if (n <? 32)%nat
       then "\u00" ++ String (hex_char (n / 16)) (String (hex_char (n mod 16)) EmptyString)
       else String c EmptyString.

Fixpoint quote_chars (s : string) : string :=
  match s with
  | EmptyString => EmptyString
  | String c r => quote_char c ++ quote_chars r
  end.

(** [QuoteJSONString]. *)
Definition QuoteJSONString (s : string) : string :=
  DQ ++ quote_chars s ++ DQ.

(** [SerializeJSONProperty] with a gap of two spaces; [indent] is the
    current indentation. [None] is [undefined]: the property is left out
    of an object, and an array element is written [null]. A [Date] is
    serialised through its [toJSON] method. *)
Fixpoint SerializeJSONProperty (indent : string) (v : JSValue)
  : option string :=
  match v with
  | JUndefined => None
  | JNull => Some "null"
  | JString s => Some (QuoteJSONString s)
  | JDate (ValidDate t) => Some (QuoteJSONString (toISOString t))
  | JDate InvalidDate => Some "null"
  | JArray items =>
      let stepback := indent in
      let indent := indent ++ "  " in
      let partial :=
        map (fun item =>
               match SerializeJSONProperty indent item with
               | Some str => str
               | None => "null"
               end) items in
      match partial with
      | [] => Some "[]"
      | _ => Some ("[" ++ LF ++ indent
                   ++ String.concat ("," ++ LF ++ indent) partial
                   ++ LF ++ stepback ++ "]")
      end
  | JObject props =>
      let stepback := indent in
      let indent := indent ++ "  " in
      let partial :=
        flat_map (fun kv =>
                    match SerializeJSONProperty indent (snd kv) with
                    | Some str => [QuoteJSONString (fst kv) ++ ": " ++ str]
                    | None => []
                    end) props in
      match partial with
      | [] => Some "{}"
      | _ => Some ("{" ++ LF ++ indent
                   ++ String.concat ("," ++ LF ++ indent) partial
                   ++ LF ++ stepback ++ "}")
      end
  end.

Definition of_option_string (o : option string) : JSValue :=
  match o with
  | Some s => JString s
  | None => JUndefined
  end.

(** The object literal returned by [readPostMetadata], as a value. *)
Definition post_object (post : PostRecord) : JSValue :=
  JObject [ ("filePath", JString (filePath post));
            ("urlPath", JString (urlPath post));
            ("title", of_option_string (title post));
            ("date", JDate (date post));
            ("description", of_option_string (description post)) ].

(** [JSON.stringify(posts, null, 2)]. *)
Definition JSON_stringify (posts : list PostRecord) : string :=
  match SerializeJSONProperty "" (JArray (map post_object posts)) with
  | Some str => str
  | None => "undefined"
  end.

(* ================================================================== *)
(** ** Reading the listing back *)
(* ================================================================== *)

(** The reader of the array literal: the JSON grammar for strings, [null],
    arrays and objects, which is what [JSON.stringify] writes here. It
    gives the value that a module importing the listing gets. *)

Definition is_ws (c : ascii) : bool :=
  Ascii.eqb c " " || Ascii.eqb c "010" || Ascii.eqb c "013"
  || Ascii.eqb c "009".

Fixpoint skip_ws (s : string) : string :=
  match s with
  | EmptyString => EmptyString
  | String c r => if is_ws c then skip_ws r else s
  end.

Definition hex_value (c : ascii) : option nat :=
  let n := nat_of_ascii c in
  if (48 <=? n)%nat && (n <=? 57)%nat then Some (n - 48)%nat
  else if (97 <=? n)%nat && (n <=? 102)%nat then Some (n - 87)%nat
  else if (65 <=? n)%nat && (n <=? 70)%nat then Some (n - 55)%nat
  else None.

(** The code unit written by a one-letter escape. *)
Definition unescape (e : ascii) : option ascii :=
  let n := nat_of_ascii e in
  if (n =? 98)%nat then Some "008"%char          (* \b *)
  else if (n =? 116)%nat then Some "009"%char    (* \t *)
  else if (n =? 110)%nat then Some "010"%char    (* \n *)
  else if (n =? 102)%nat then Some "012"%char    (* \f *)
  else if (n =? 114)%nat then Some "013"%char    (* \r *)
  else if (n =? 34)%nat || (n =? 92)%nat || (n =? 47)%nat then Some e
  else None.

Definition cons_char (c : ascii) (r : option (string * string))
  : option (string * string) :=
  match r with
  | Some (str, rest) => Some (String c str, rest)
  | None => None
  end.

(** The characters of a string literal after its opening quote, up to the
    closing quote; the text after it is returned too. *)
Fixpoint parse_chars (s : string) : option (string * string) :=
  match s with
  | EmptyString => None
  | String c r =>
      if Ascii.eqb c "034" then Some (EmptyString, r)
      else if Ascii.eqb c "\" then
        match r with
        | String e r' =>
            match unescape e with
            | Some ch => cons_char ch (parse_chars r')
            | None =>
                if Ascii.eqb e "u" then
                  match r' with
                  | String h1 (String h2 (String h3 (String h4 r''))) =>
                      match hex_value h1, hex_value h2,
                            hex_value h3, hex_value h4 with
                      | Some 0%nat, Some 0%nat, Some a, Some b =>
                          cons_char (ascii_of_nat (16 * a + b))
                                    (parse_chars r'')
                      | _, _, _, _ => None
                      end
                  | _ => None
                  end
                else None
            end
        | EmptyString => None
        end
      else if (nat_of_ascii c <? 32)%nat then None
      else cons_char c (parse_chars r)
  end.

Fixpoint parse_value (fuel : nat) (s : string) : option (JSValue * string) :=
  match fuel with
  | O => None
  | S fuel' =>
      match skip_ws s with
      | EmptyString => None
      | String c r =>
          if Ascii.eqb c "034" then
            match parse_chars r with
            | Some (str, rest) => Some (JString str, rest)
            | None => None
            end
          else if Ascii.eqb c "[" then
            match skip_ws r with
            | String c' rest =>
                if Ascii.eqb c' "]" then Some (JArray [], rest)
                else match parse_elements fuel' r with
                     | Some (items, rest) => Some (JArray items, rest)
                     | None => None
                     end
            | EmptyString => None
            end
          else if Ascii.eqb c "{" then
            match skip_ws r with
            | String c' rest =>
                if Ascii.eqb c' "}" then Some (JObject [], rest)
                else match parse_members fuel' r with
                     | Some (props, rest) => Some (JObject props, rest)
                     | None => None
                     end
            | EmptyString => None
            end
          else match strip_prefix "null" (String c r) with
               | Some rest => Some (JNull, rest)
               | None => None
               end
      end
  end

with parse_elements (fuel : nat) (s : string)
  : option (list JSValue * string) :=
  match fuel with
  | O => None
  | S fuel' =>
      match parse_value fuel' s with
      | None => None
      | Some (v, rest) =>
          match skip_ws rest with
          | EmptyString => None
          | String c rest' =>
              if Ascii.eqb c "," then
                match parse_elements fuel' rest' with
                | Some (vs, rest'') => Some (v :: vs, rest'')
                | None => None
                end
              else if Ascii.eqb c "]" then Some ([v], rest')
              else None
          end
      end
  end

with parse_members (fuel : nat) (s : string)
  : option (list (string * JSValue) * string) :=
  match fuel with
  | O => None
  | S fuel' =>
      match skip_ws s with
      | EmptyString => None
      | String q r =>
          if Ascii.eqb q "034" then
            match parse_chars r with
            | None => None
            | Some (key, rest) =>
                match skip_ws rest with
                | EmptyString => None
                | String c rest' =>
                    if Ascii.eqb c ":" then
                      match parse_value fuel' rest' with
                      | None => None
                      | Some (v, rest'') =>
                          match skip_ws rest'' with
                          | EmptyString => None
                          | String c' r3 =>
                              if Ascii.eqb c' "," then
                                match parse_members fuel' r3 with
                                | Some (ms, r4) => Some ((key, v) :: ms, r4)
                                | None => None
                                end
                              else if Ascii.eqb c' "}"
                                   then Some ([(key, v)], r3)
                                   else None
                          end
                      end
                    else None
                end
            end
          else None
      end
  end.

(** The text after the first line. *)
Fixpoint after_line (s : string) : string :=
  match s with
  | EmptyString => EmptyString
  | String c r => if Ascii.eqb c "010" then r else after_line r
  end.

(** The default export of the listing module: a comment line, then
    [export default], the array literal and a semicolon. *)
Definition listing_default_export (text : string) : option JSValue :=
  match strip_prefix "//" text with
  | None => None
  | Some _ =>
      match strip_prefix "export default " (skip_ws (after_line text)) with
      | None => None
      | Some literal =>
          match parse_value (String.length text) literal with
          | Some (v, rest) =>
              match skip_ws rest with
              | String c rest' =>
                  if Ascii.eqb c ";" && String.eqb (skip_ws rest') EmptyString
                  then Some v else None
              | EmptyString => None
              end
          | None => None
          end
      end
  end.

(* ================================================================== *)
(** ** main *)
(* ================================================================== *)

(** The files that the script writes, by path. *)
Definition FileStore : Type := string -> option string.

(** [fs.writeFileSync(path, data)]: the file is created or replaced. *)
Definition writeFileSync (path data : string) (files : FileStore) : FileStore :=
  fun p => if String.eqb p path then Some data else files p.

Definition exportPath : string := "pages/posts/index.gen.js".
Definition rssPath : string := "public/static/blog-rss.xml".

(** The text written to [exportPath]. *)
Definition listing_module (postsJSON : string) : string :=
  "// automatically generated by build_post_index.js" ++ LF ++
  "export default " ++ postsJSON ++ ";" ++ LF.

Section Pipeline.

Variable requireMDXFileSync : string -> result (option Meta * node).
Variable Date_parse : string -> option Z.

(** [Rss.draw], compiled from the site's ReasonML sources. *)
Variable Rss_draw : list PostRecord -> string.

(** The content of [pages/posts]. *)
Variable entries : list (string * fsnode).

(** [now] is the clock reading of [const now = new Date()], and
    [clockAt i] the reading during the extraction of the [i]-th post. *)
Variable now : Z.
Variable clockAt : nat -> Z.

(** Lines 94-99: the posts to publish. *)
Definition collect : result (list PostRecord) :=
  match scanDir "pages/posts" ".mdx" entries with
  | None => Throw RangeError
  | Some postPaths =>
      records <-
        Array_map
          (fun i postPath =>
             readPostMetadata requireMDXFileSync Date_parse
                              (clockAt i) postPath)
          postPaths ;;
      Ok (assemble records (ValidDate now))
  end.

Definition main (files : FileStore) : result FileStore :=
  posts <- collect ;;
  let postsJSON := JSON_stringify posts in
  let files := writeFileSync exportPath (listing_module postsJSON) files in
  let rssXML := Rss_draw posts in
  let files := writeFileSync rssPath rssXML files in
  Ok files.

End Pipeline.

(* ================================================================== *)
(** ** Vocabulary of the statements *)
(* ================================================================== *)

(** [a] is dated at or after [b]; both dates are valid. *)
Definition newer_or_same (a b : PostRecord) : Prop :=
  match valueOf (date a), valueOf (date b) with
  | Some x, Some y => y <= x
  | _, _ => False
  end.

(** The post is dated exactly [t]. *)
Definition dated (t : Z) (post : PostRecord) : bool :=
  match date post with
  | ValidDate t' => t' =? t
  | InvalidDate => false
  end.

Definition has_valid_date (post : PostRecord) : Prop :=
  exists t, date post = ValidDate t.

(** The code unit [c] occurs in [s]. *)
Fixpoint contains (c : ascii) (s : string) : bool :=
  match s with
  | EmptyString => false
  | String c' r => Ascii.eqb c' c || contains c r
  end.

(** The [meta] export carries the non-empty text [s] in its field [f]. *)
Definition meta_text (meta : option Meta) (f : Meta -> option string)
           (s : string) : Prop :=
  exists m, meta = Some m /\ f m = Some s /\ s <> "".

(** The first block of the tree selected by [kind] has a first child [c]. *)
Definition first_block_child (kind : node -> bool) (ast c : node) : Prop :=
  exists h, find kind (children ast) = Some h /\ hd_error (children h) = Some c.

(** ** Sample documents *)

(** The post [semigroups-and-monoids]: its [meta] export has a date and a
    description and no title; the tree starts with the import and export
    lines, the title heading and the first paragraphs. *)
Definition sample_meta : Meta :=
  {| meta_title := None;
     meta_description :=
       Some "Semigroups and monoids are the two algebraic structures that are the most useful to the working engineer.";
     meta_date := Some "2020-02-16T08:27:21.579Z" |}.

Definition text_node (s : string) : node := Node "text" None (Some s) [].

Definition sample_ast : node :=
  Node "root" None None
    [ Node "import" None
        (Some "import Page from '@reason/pages/Posts.bs'; export default Page;") [];
      Node "export" None (Some "export const meta = { };") [];
      Node "heading" (Some 1) None [text_node "Semigroups and Monoids"];
      Node "paragraph" None None
        [text_node "If you ask someone who has interacted with me in the last five years to describe me, they may say: Brandon loves monoids."];
      Node "heading" (Some 2) None [text_node "Algebraic structures in programs"];
      Node "paragraph" None None
        [text_node "Algebraic structures in typed programming languages are defined by signatures."] ].

Definition sample_path : string := "pages/posts/semigroups-and-monoids.mdx".

(** A toolchain that compiles every path to the sample post. *)
Definition sample_require (meta : option Meta) (ast : node)
  : string -> result (option Meta * node) :=
  fun _ => Ok (meta, ast).

(** A post whose [meta] export has an empty title. *)
Definition untitled_meta : Meta :=
  {| meta_title := Some "";
     meta_description := Some "A draft.";
     meta_date := Some "2020-02-16T08:27:21.579Z" |}.

(** A post whose [meta] export has no date. *)
Definition undated_meta : Meta :=
  {| meta_title := Some "Notes";
     meta_description := Some "Undated notes.";
     meta_date := None |}.

(** A post whose [meta] export has a date that is no date. *)
Definition misdated_meta : Meta :=
  {| meta_title := Some "Notes";
     meta_description := Some "Misdated notes.";
     meta_date := Some "next tuesday" |}.

(** A [pages/posts] directory that holds the sample post and nothing else. *)
Definition sample_entries : list (string * fsnode) :=
  [ ("semigroups-and-monoids.mdx", RegularFile) ].

(** A feed writer to run the examples with: one item per post. *)
Definition sample_draw (posts : list PostRecord) : string :=
  "<rss>" ++
  String.concat ""
    (map (fun post => "<item><link>" ++ urlPath post ++ "</link></item>") posts)
  ++ "</rss>".

Definition no_files : FileStore := fun _ => None.

(** ** Directory trees *)

(** In every directory of the tree, the entries have distinct names. *)
Fixpoint unique_names (st : fsnode) : Prop :=
  match st with
  | Directory entries =>
      NoDup (map fst entries) /\
      fold_right (fun e P => unique_names (snd e) /\ P) True entries
  | _ => True
  end.

(** [file_at p st q]: in the tree [st] found at path [p], the path [q]
    leads to a regular file. *)
Inductive file_at : string -> fsnode -> string -> Prop :=
| file_here (p : string) : file_at p RegularFile p
| file_below (p : string) (entries : list (string * fsnode))
             (name : string) (st : fsnode) (q : string) :
    In (name, st) entries ->
    file_at (path_join p name) st q ->
    file_at p (Directory entries) q.

Definition name_le (a b : string * fsnode) : Prop :=
  String.leb (fst a) (fst b) = true.

(** [visit ext p st out]: [out] is what a depth-first visit of the tree
    [st] at path [p] collects when each directory is gone through in the
    lexicographic order of its entry names: a regular file gives its path
    if the path ends with [ext], a directory gives what its entries give,
    one after the other. *)
Inductive visit (ext : string) : string -> fsnode -> list string -> Prop :=
| visit_file (p : string) :
    visit ext p RegularFile (if endsWith p ext then [p] else [])
| visit_special (p : string) :
    visit ext p Special []
| visit_dir (p : string) (entries sorted : list (string * fsnode))
            (outs : list (list string)) :
    Permutation sorted entries ->
    StronglySorted name_le sorted ->
    Forall2 (fun e out => visit ext (path_join p (fst e)) (snd e) out)
            sorted outs ->
    visit ext p (Directory entries) (List.concat outs).

(** What [statSync] finds for a listed name; [Special] is a placeholder for
    names that are not listed. *)
Definition stat_of (entries : list (string * fsnode)) (name : string)
  : string * fsnode :=
  (name, match statSync entries name with Some st => st | None => Special end).

(** What a correct visit of the tree [st] at path [p] collects. *)
Definition collects (ext p : string) (st : fsnode) (out : list string) : Prop :=
  visit ext p st out /\
  forall q, In q out <-> file_at p st q /\ endsWith q ext = true.

(** A [pages/posts] directory with posts, a draft folder and other files,
    listed in no particular order. *)
Definition sample_tree : list (string * fsnode) :=
  [ ("semigroups-and-monoids.mdx", RegularFile);
    ("index.gen.js", RegularFile);
    ("drafts", Directory [ ("wip.mdx", RegularFile);
                           ("notes.MDX", RegularFile);
                           ("old", Directory []) ]);
    ("hello.mdx", RegularFile);
    ("about.md", RegularFile) ].

(** ** The listing read back *)

(** What a date reads back as: the text of [toISOString], or [null]. *)
Definition date_data (d : Date) : JSValue :=
  match d with
  | ValidDate t => JString (toISOString t)
  | InvalidDate => JNull
  end.

Definition option_prop (key : string) (o : option string)
  : list (string * JSValue) :=
  match o with
  | Some s => [(key, JString s)]
  | None => []
  end.

Definition post_props (post : PostRecord) : list (string * JSValue) :=
  ([ ("filePath", JString (filePath post));
     ("urlPath", JString (urlPath post)) ]
   ++ option_prop "title" (title post)
   ++ [ ("date", date_data (date post)) ]
   ++ option_prop "description" (description post))%list.

(** What a post reads back as. *)
Definition post_data (post : PostRecord) : JSValue :=
  JObject (post_props post).

(** Strings and [null]. *)
Definition scalar (v : JSValue) : Prop :=
  match v with
  | JString _ | JNull => True
  | _ => False
  end.

Definition scalar_text (v : JSValue) : string :=
  match v with
  | JString s => QuoteJSONString s
  | _ => "null"
  end.

Definition member_text (kv : string * JSValue) : string :=
  QuoteJSONString (fst kv) ++ ": " ++ scalar_text (snd kv).

(** An object of scalars, as written at the first level of an array. *)
Definition object_text (props : list (string * JSValue)) : string :=
  "{" ++ LF ++ "    "
  ++ String.concat ("," ++ LF ++ "    ") (map member_text props)
  ++ LF ++ "  " ++ "}".

Definition sample_post : PostRecord :=
  {| filePath := sample_path;
     urlPath := "/posts/semigroups-and-monoids";
     title := Some "Semigroups and Monoids";
     date := ValidDate 1581841641579;
     description := meta_description sample_meta |}.

(** The three posts of the end-to-end scenario: dated 2020-01-01,
    2020-06-01 and 2099-01-01. *)
Definition post_dated (path : string) (t : Z) : PostRecord :=
  {| filePath := path; urlPath := urlPath_of path;
     title := Some path; date := ValidDate t; description := Some path |}.

Definition january : PostRecord := post_dated "pages/posts/a.mdx" 1577836800000.
Definition june : PostRecord := post_dated "pages/posts/b.mdx" 1590969600000.
Definition far_future : PostRecord :=
  post_dated "pages/posts/c.mdx" 4070908800000.

(** ** Vocabulary of the further properties *)

(** No entry name of the tree holds the code unit [c]. *)
Fixpoint names_without (c : ascii) (st : fsnode) : Prop :=
  match st with
  | Directory entries =>
      fold_right
        (fun e P => contains c (fst e) = false /\ names_without c (snd e) /\ P)
        True entries
  | _ => True
  end.

(** The same tree, its directories listed in another order. *)
Inductive same_tree : fsnode -> fsnode -> Prop :=
| same_file : same_tree RegularFile RegularFile
| same_special : same_tree Special Special
| same_dir (entries entries' listed : list (string * fsnode)) :
    Permutation listed entries' ->
    Forall2 (fun e e' => fst e = fst e' /\ same_tree (snd e) (snd e'))
            entries listed ->
    same_tree (Directory entries) (Directory entries').

(** The sample directory as another system could list it. *)
Definition sample_tree_relisted : list (string * fsnode) :=
  [ ("about.md", RegularFile);
    ("hello.mdx", RegularFile);
    ("drafts", Directory [ ("old", Directory []);
                           ("notes.MDX", RegularFile);
                           ("wip.mdx", RegularFile) ]);
    ("index.gen.js", RegularFile);
    ("semigroups-and-monoids.mdx", RegularFile) ].


(** A post without heading. *)
Definition untitled_ast : node :=
  Node "root" None None
    [ Node "paragraph" None None [text_node "No title here."] ].

(* ================================================================== *)
(** * Properties *)
(* ================================================================== *)

(** ** The sort *)

Section SortFacts.

Context {A : Type}.
Variable comparefn : A -> A -> option Z.

Lemma sort_insert_perm (x : A) (l : list A) :
  Permutation (sort_insert comparefn x l) (x :: l).
Proof.
  induction l as [|y l IH]; simpl.
  - apply Permutation_refl.
  - destruct (SortCompare comparefn x y <=? 0).
    + apply Permutation_refl.
    + eapply perm_trans; [apply perm_skip, IH | apply perm_swap].
Qed.

Lemma Array_sort_perm (l : list A) :
  Permutation (Array_sort comparefn l) l.
Proof.
  induction l as [|x l IH]; simpl.
  - apply perm_nil.
  - eapply perm_trans; [apply sort_insert_perm | apply perm_skip, IH].
Qed.

Lemma Array_sort_In (l : list A) (x : A) :
  In x (Array_sort comparefn l) <-> In x l.
Proof.
  split; apply Permutation_in;
    [apply Array_sort_perm | apply Permutation_sym, Array_sort_perm].
Qed.

(** Stability: elements that the comparator does not put one after the
    other keep their order. [P] selects such a class of elements. *)
Section Stable.

Variable P : A -> bool.
Hypothesis P_tied :
  forall x y, P x = true -> P y = true -> SortCompare comparefn x y <= 0.

Lemma sort_insert_filter (x : A) (l : list A) :
  filter P (sort_insert comparefn x l) = filter P (x :: l).
Proof.
  induction l as [|y l IH]; [reflexivity|].
  cbn [sort_insert].
  destruct (SortCompare comparefn x y <=? 0) eqn:E; [reflexivity|].
  apply Z.leb_gt in E.
  cbn [filter] in *. rewrite IH.
  destruct (P x) eqn:Px; [|reflexivity].
  destruct (P y) eqn:Py; [|reflexivity].
  specialize (P_tied x y Px Py). lia.
Qed.

Lemma Array_sort_filter (l : list A) :
  filter P (Array_sort comparefn l) = filter P l.
Proof.
  induction l as [|x l IH]; [reflexivity|].
  cbn [Array_sort]. rewrite sort_insert_filter.
  cbn [filter]. now rewrite IH.
Qed.

End Stable.

(** Order: on a domain [D] where the comparator decides a transitive
    relation [R], the result is sorted for [R]. *)
Section Ordered.

Variable D : A -> Prop.
Variable R : A -> A -> Prop.
Hypothesis R_le :
  forall x y, D x -> D y -> SortCompare comparefn x y <= 0 -> R x y.
Hypothesis R_gt :
  forall x y, D x -> D y -> 0 < SortCompare comparefn x y -> R y x.
Hypothesis R_trans : forall x y z, R x y -> R y z -> R x z.

Lemma sort_insert_sorted (x : A) (l : list A) :
  D x -> Forall D l -> StronglySorted R l ->
  StronglySorted R (sort_insert comparefn x l).
Proof.
  intros Dx Dl Hs. induction Hs as [|y l Hs IH Hy]; cbn [sort_insert].
  - constructor; constructor.
  - inversion Dl as [|? ? Dy Dl']; subst.
    destruct (SortCompare comparefn x y <=? 0) eqn:E.
    + apply Z.leb_le in E. constructor.
      * constructor; assumption.
      * constructor; [now apply R_le|].
        eapply Forall_impl; [|exact Hy].
        intros z Hz. eapply R_trans; [apply R_le; eassumption | exact Hz].
    + apply Z.leb_gt in E. constructor; [now apply IH|].
      eapply Permutation_Forall;
        [apply Permutation_sym, sort_insert_perm|].
      constructor; [now apply R_gt | exact Hy].
Qed.

Lemma Array_sort_sorted (l : list A) :
  Forall D l -> StronglySorted R (Array_sort comparefn l).
Proof.
  induction l as [|x l IH]; intros Dl; cbn [Array_sort].
  - constructor.
  - inversion Dl as [|? ? Dx Dl']; subst.
    apply sort_insert_sorted; [assumption | | now apply IH].
    eapply Permutation_Forall;
      [apply Permutation_sym, Array_sort_perm | assumption].
Qed.

End Ordered.

End SortFacts.

(** ** Filtering and ordering of the published posts *)

Lemma Date_le_valid (d : Date) (now : Z) :
  Date_le d (ValidDate now) = true <-> exists t, d = ValidDate t /\ t <= now.
Proof.
  destruct d as [t|]; cbn.
  - rewrite Z.leb_le. split.
    + intros H. exists t. auto.
    + intros (t' & E & H). now inversion E; subst.
  - split; [discriminate | intros (t & E & _); discriminate].
Qed.

Lemma published_valid (records : list PostRecord) (now : Z) :
  Forall has_valid_date
    (filter (fun post => Date_le (date post) (ValidDate now)) records).
Proof.
  apply Forall_forall. intros p Hp. apply filter_In in Hp.
  destruct Hp as [_ Hp]. apply Date_le_valid in Hp.
  destruct Hp as (t & E & _). now exists t.
Qed.

Lemma by_date_desc_le (a b : PostRecord) :
  has_valid_date a -> has_valid_date b ->
  SortCompare by_date_desc a b <= 0 -> newer_or_same a b.
Proof.
  intros [x Ex] [y Ey]. unfold SortCompare, by_date_desc, newer_or_same, Date_sub.
  rewrite Ex, Ey. cbn. lia.
Qed.

Lemma by_date_desc_gt (a b : PostRecord) :
  has_valid_date a -> has_valid_date b ->
  0 < SortCompare by_date_desc a b -> newer_or_same b a.
Proof.
  intros [x Ex] [y Ey]. unfold SortCompare, by_date_desc, newer_or_same, Date_sub.
  rewrite Ex, Ey. cbn. lia.
Qed.

Lemma newer_or_same_trans (a b c : PostRecord) :
  newer_or_same a b -> newer_or_same b c -> newer_or_same a c.
Proof.
  unfold newer_or_same.
  destruct (valueOf (date a)), (valueOf (date b)), (valueOf (date c));
    try tauto; lia.
Qed.

Lemma dated_tied (t : Z) (a b : PostRecord) :
  dated t a = true -> dated t b = true -> SortCompare by_date_desc a b <= 0.
Proof.
  unfold dated, SortCompare, by_date_desc, Date_sub.
  destruct (date a) as [x|], (date b) as [y|]; try discriminate.
  rewrite !Z.eqb_eq. intros -> ->. cbn. lia.
Qed.

Lemma dated_published (t now : Z) (records : list PostRecord) :
  t <= now ->
  filter (dated t)
    (filter (fun post => Date_le (date post) (ValidDate now)) records)
  = filter (dated t) records.
Proof.
  intros Hle. induction records as [|p l IH]; [reflexivity|].
  cbn [filter]. destruct (dated t p) eqn:Dp.
  - assert (Date_le (date p) (ValidDate now) = true) as ->.
    { unfold dated in Dp. destruct (date p) as [x|]; [|discriminate].
      apply Z.eqb_eq in Dp. subst x. cbn. now apply Z.leb_le. }
    cbn [filter]. rewrite Dp. now rewrite IH.
  - destruct (Date_le (date p) (ValidDate now)); [|exact IH].
    cbn [filter]. now rewrite Dp.
Qed.

(** C1. Whatever the records and the timestamp [now], the published
    sequence is sorted from the newest to the oldest date (non-increasing),
    and the records that share a date come in the order they had in the
    input sequence. *)
Theorem assemble_sorted_stable (records : list PostRecord) (now : Z) :
  StronglySorted newer_or_same (assemble records (ValidDate now)) /\
  (forall t : Z, t <= now ->
     filter (dated t) (assemble records (ValidDate now))
     = filter (dated t) records).
Proof.
  unfold assemble. split.
  - apply Array_sort_sorted with (D := has_valid_date).
    + exact by_date_desc_le.
    + exact by_date_desc_gt.
    + exact newer_or_same_trans.
    + apply published_valid.
  - intros t Hle. rewrite Array_sort_filter.
    + now apply dated_published.
    + apply dated_tied.
Qed.

Lemma assemble_sorted_stable_witness :
  5 <= 7 /\
  filter (dated 5)
         (assemble [ post_dated "x" 5; post_dated "y" 7; post_dated "z" 5;
                     post_dated "w" 8 ] (ValidDate 7))
  = filter (dated 5)
           [ post_dated "x" 5; post_dated "y" 7; post_dated "z" 5;
             post_dated "w" 8 ].
Proof.
  split; [lia|].
  apply (proj2 (assemble_sorted_stable
                  [ post_dated "x" 5; post_dated "y" 7; post_dated "z" 5;
                    post_dated "w" 8 ] 7)).
  lia.
Defined.



(** ** Strings *)

Lemma append_nil_r (s : string) : s ++ "" = s.
Proof. induction s as [|c s IH]; cbn; [reflexivity | now rewrite IH]. Qed.

Lemma append_assoc (a b c : string) : (a ++ b) ++ c = a ++ (b ++ c).
Proof. induction a as [|x a IH]; cbn; [reflexivity | now rewrite IH]. Qed.

Lemma length_append (a b : string) :
  String.length (a ++ b) = (String.length a + String.length b)%nat.
Proof. induction a as [|x a IH]; cbn; [reflexivity | now rewrite IH]. Qed.

Lemma substring_all (s : string) : substring 0 (String.length s) s = s.
Proof. induction s as [|c s IH]; cbn; [reflexivity | now rewrite IH]. Qed.

Lemma substring_append_r (a b : string) :
  substring (String.length a) (String.length b) (a ++ b) = b.
Proof. induction a as [|x a IH]; cbn; [apply substring_all | exact IH]. Qed.

Lemma substring_split (n : nat) (s : string) :
  (n <= String.length s)%nat ->
  s = substring 0 n s ++ substring n (String.length s - n) s.
Proof.
  revert s. induction n as [|n IH]; intros s Hn.
  - rewrite Nat.sub_0_r, substring_all. now destruct s.
  - destruct s as [|c s]; cbn in *; [lia|].
    f_equal. apply IH. lia.
Qed.

Lemma endsWith_spec (s suffix : string) :
  endsWith s suffix = true <-> exists p, s = p ++ suffix.
Proof.
  unfold endsWith. rewrite andb_true_iff, Nat.leb_le, String.eqb_eq. split.
  - intros [Hlen Hsub].
    exists (substring 0 (String.length s - String.length suffix) s).
    pose proof (substring_split (String.length s - String.length suffix) s)
      as H.
    replace (String.length s - (String.length s - String.length suffix))%nat
      with (String.length suffix) in H by lia.
    rewrite Hsub in H. apply H. lia.
  - intros [p ->]. rewrite length_append. split; [lia|].
    replace (String.length p + String.length suffix - String.length suffix)%nat
      with (String.length p) by lia.
    apply substring_append_r.
Qed.

Lemma endsWith_cons (c : ascii) (s suffix : string) :
  endsWith s suffix = true -> endsWith (String c s) suffix = true.
Proof.
  rewrite !endsWith_spec. intros [p ->]. now exists (String c p).
Qed.

(** ** The URL path *)

Lemma replace_backslash_first (a b : string) :
  contains "\" a = false ->
  replace_backslash (a ++ String "\" b) = a ++ String "/" b.
Proof.
  induction a as [|c a IH]; cbn; [reflexivity|].
  intros H. apply orb_false_iff in H. destruct H as [Hc Ha].
  rewrite Hc. now rewrite IH.
Qed.

Lemma replace_backslash_none (s : string) :
  contains "\" s = false -> replace_backslash s = s.
Proof.
  induction s as [|c s IH]; cbn; [reflexivity|].
  intros H. apply orb_false_iff in H. destruct H as [Hc Hs].
  rewrite Hc. now rewrite IH.
Qed.

Lemma strip_prefix_spec (p s r : string) :
  strip_prefix p s = Some r <-> s = p ++ r.
Proof.
  revert s. induction p as [|a p IH]; intros s; cbn.
  - split; [now intros [= ->] | now intros ->].
  - destruct s as [|b s]; [split; discriminate|].
    destruct (Ascii.eqb_spec a b) as [->|Hne].
    + rewrite IH. split; [now intros -> | now intros [= ->]].
    + split; [discriminate | intros [= <- _]; now elim Hne].
Qed.

Lemma replace_pages_prefix (r : string) : replace_pages ("pages" ++ r) = r.
Proof. reflexivity. Qed.

Lemma replace_pages_other (s : string) :
  (forall r, s <> "pages" ++ r) -> replace_pages s = s.
Proof.
  intros H. unfold replace_pages.
  destruct (strip_prefix "pages" s) as [r|] eqn:E; [|reflexivity].
  apply strip_prefix_spec in E. now apply H in E.
Qed.

Lemma replace_mdx_mdx (r : string) : replace_mdx (r ++ ".mdx") = r.
Proof.
  induction r as [|c r IH]; [reflexivity|].
  cbn [append replace_mdx].
  destruct (String.eqb_spec (String c (r ++ ".mdx")) ".mdx") as [E|_].
  { apply (f_equal String.length) in E. cbn in E.
    rewrite length_append in E. cbn in E. lia. }
  destruct (String.eqb_spec (String c (r ++ ".mdx")) ".md") as [E|_].
  { apply (f_equal String.length) in E. cbn in E.
    rewrite length_append in E. cbn in E. lia. }
  cbn. now rewrite IH.
Qed.

Lemma replace_mdx_md (r : string) : replace_mdx (r ++ ".md") = r.
Proof.
  induction r as [|c r IH]; [reflexivity|].
  cbn [append replace_mdx].
  destruct (String.eqb_spec (String c (r ++ ".md")) ".mdx") as [E|_].
  { destruct r as [|c' r]; [discriminate|].
    apply (f_equal String.length) in E. cbn in E.
    rewrite length_append in E. cbn in E. lia. }
  destruct (String.eqb_spec (String c (r ++ ".md")) ".md") as [E|_].
  { apply (f_equal String.length) in E. cbn in E.
    rewrite length_append in E. cbn in E. lia. }
  cbn. now rewrite IH.
Qed.

Lemma replace_mdx_other (s : string) :
  endsWith s ".mdx" = false -> endsWith s ".md" = false -> replace_mdx s = s.
Proof.
  induction s as [|c s IH]; [reflexivity|].
  intros Hx Hd. cbn [replace_mdx].
  destruct (String.eqb_spec (String c s) ".mdx") as [E|_].
  { rewrite E in Hx. discriminate. }
  destruct (String.eqb_spec (String c s) ".md") as [E|_].
  { rewrite E in Hd. discriminate. }
  cbn. rewrite IH; [reflexivity | |].
  - destruct (endsWith s ".mdx") eqn:E; [|reflexivity].
    apply (endsWith_cons c) in E. congruence.
  - destruct (endsWith s ".md") eqn:E; [|reflexivity].
    apply (endsWith_cons c) in E. congruence.
Qed.

Example urlPath_of_windows :
  urlPath_of "pages\posts\a\b.mdx" = "/posts\a\b".
Proof. reflexivity. Qed.

Example urlPath_of_md : urlPath_of "pages/posts/hello.md" = "/posts/hello".
Proof. reflexivity. Qed.

(** C5. The URL path of a record is a function of the post path alone,
    whatever the toolchain, the date parser and the clock do. The function
    turns the first backslash, and no other, into a slash, then removes a
    leading [pages], then removes a trailing [.md] or [.mdx]; it maps
    [pages/posts/a/b.mdx] to [/posts/a/b]. *)
Theorem urlPath_pure_transform :
  (forall requireMDXFileSync Date_parse clock postPath post,
      readPostMetadata requireMDXFileSync Date_parse clock postPath = Ok post ->
      urlPath post = replace_mdx (replace_pages (replace_backslash postPath)))
  /\ (forall a b : string,
        contains "\" a = false ->
        replace_backslash (a ++ String "\" b) = a ++ String "/" b)
  /\ (forall s : string, contains "\" s = false -> replace_backslash s = s)
  /\ (forall r : string, replace_pages ("pages" ++ r) = r)
  /\ (forall s : string,
        (forall r, s <> "pages" ++ r) -> replace_pages s = s)
  /\ (forall r : string, replace_mdx (r ++ ".mdx") = r)
  /\ (forall r : string, replace_mdx (r ++ ".md") = r)
  /\ (forall s : string,
        endsWith s ".mdx" = false -> endsWith s ".md" = false ->
        replace_mdx s = s)
  /\ urlPath_of "pages/posts/a/b.mdx" = "/posts/a/b".
Proof.
  split.
  { intros req parse clock postPath post H. unfold readPostMetadata in H.
    destruct (req postPath) as [[meta ast]|e]; cbn in H; [|discriminate].
    destruct (match truthy_field meta meta_title with
              | Some t => Ok (Some t)
              | None => first_child_value (filter is_heading1 (children ast))
              end) as [t|e]; cbn in H; [|discriminate].
    destruct (match truthy_field meta meta_description with
              | Some d => Ok (Some d)
              | None => first_child_value (filter is_paragraph (children ast))
              end) as [d|e]; cbn in H; [|discriminate].
    inversion H; subst. reflexivity. }
  split; [exact replace_backslash_first|].
  split; [exact replace_backslash_none|].
  split; [exact replace_pages_prefix|].
  split; [exact replace_pages_other|].
  split; [exact replace_mdx_mdx|].
  split; [exact replace_mdx_md|].
  split; [exact replace_mdx_other | reflexivity].
Qed.

Lemma urlPath_pure_transform_witness :
  urlPath sample_post = "/posts/semigroups-and-monoids"
  /\ replace_backslash ("pages" ++ String "\" "posts\a.mdx")
     = "pages" ++ String "/" "posts\a.mdx"
  /\ replace_mdx "README" = "README".
Proof.
  pose proof urlPath_pure_transform
    as (Hpure & Hfirst & _ & _ & _ & _ & _ & Hother & _).
  split; [|split].
  - exact (Hpure (sample_require (Some sample_meta) sample_ast)
                 Date_parse_ISO 0 sample_path sample_post eq_refl).
  - apply Hfirst. reflexivity.
  - apply Hother; reflexivity.
Defined.


(** ** Extraction *)

Lemma truthy_nonempty (s : string) : truthy s = true <-> s <> "".
Proof. destruct s; cbn; split; congruence. Qed.

Lemma truthy_field_Some (meta : option Meta) (f : Meta -> option string)
      (s : string) :
  truthy_field meta f = Some s <-> meta_text meta f s.
Proof.
  unfold truthy_field, meta_text. split.
  - destruct meta as [m|]; [|discriminate].
    destruct (f m) as [s'|] eqn:E; [|discriminate].
    destruct (truthy s') eqn:T; [|discriminate].
    intros H. inversion H; subst. exists m.
    repeat split; [assumption | now apply truthy_nonempty].
  - intros (m & -> & -> & Hs). apply truthy_nonempty in Hs. now rewrite Hs.
Qed.

Lemma truthy_field_None (meta : option Meta) (f : Meta -> option string) :
  truthy_field meta f = None <-> (forall s, ~ meta_text meta f s).
Proof.
  split.
  - intros H s Hs. apply truthy_field_Some in Hs. congruence.
  - intros H. destruct (truthy_field meta f) as [s|] eqn:E; [|reflexivity].
    apply truthy_field_Some in E. now apply H in E.
Qed.

Lemma hd_error_filter {A : Type} (f : A -> bool) (l : list A) :
  hd_error (filter f l) = find f l.
Proof.
  induction l as [|x l IH]; cbn; [reflexivity|].
  destruct (f x); [reflexivity | exact IH].
Qed.

Lemma first_child_value_Ok (kind : node -> bool) (ast : node)
      (v : option string) :
  first_child_value (filter kind (children ast)) = Ok v <->
  exists c, first_block_child kind ast c /\ value c = v.
Proof.
  unfold first_child_value, first_block_child.
  rewrite <- hd_error_filter.
  destruct (filter kind (children ast)) as [|h rest]; cbn.
  - split; [discriminate | intros (c & (h & E & _) & _); discriminate].
  - destruct (children h) as [|c cs] eqn:Ec; cbn.
    + split; [discriminate|].
      intros (c & (h' & E & Hc) & _). inversion E; subst.
      rewrite Ec in Hc. discriminate.
    + split.
      * intros H. inversion H; subst. exists c. split; [|reflexivity].
        exists h. rewrite Ec. now split.
      * intros (c' & (h' & E & Hc) & Hv). inversion E; subst.
        rewrite Ec in Hc. cbn in Hc. now inversion Hc; subst.
Qed.

Lemma first_child_value_Throw (kind : node -> bool) (ast : node) (e : exn) :
  first_child_value (filter kind (children ast)) = Throw e ->
  e = TypeError /\ forall c, ~ first_block_child kind ast c.
Proof.
  intros H. split.
  - unfold first_child_value in H.
    destruct (filter kind (children ast)) as [|h rest];
      [now inversion H|].
    destruct (children h); [now inversion H | discriminate].
  - intros c Hc.
    assert (first_child_value (filter kind (children ast)) = Ok (value c))
      as E by (apply first_child_value_Ok; now exists c).
    congruence.
Qed.

Section ExtractionFacts.

Variable requireMDXFileSync : string -> result (option Meta * node).
Variable Date_parse : string -> option Z.
Variables (clock : Z) (postPath : string).
Variables (meta : option Meta) (ast : node).
Hypothesis compiled : requireMDXFileSync postPath = Ok (meta, ast).

Let extracted := readPostMetadata requireMDXFileSync Date_parse clock postPath.

Lemma readPostMetadata_Ok (post : PostRecord) :
  extracted = Ok post <->
  (match truthy_field meta meta_title with
   | Some t => Ok (Some t)
   | None => first_child_value (filter is_heading1 (children ast))
   end = Ok (title post)) /\
  (match truthy_field meta meta_description with
   | Some d => Ok (Some d)
   | None => first_child_value (filter is_paragraph (children ast))
   end = Ok (description post)) /\
  filePath post = postPath /\
  urlPath post = urlPath_of postPath /\
  date post = match meta with
              | Some m => new_Date_from Date_parse (meta_date m)
              | None => ValidDate clock
              end.
Proof.
  unfold extracted, readPostMetadata. rewrite compiled. cbn [bind].
  destruct (match truthy_field meta meta_title with
            | Some t => Ok (Some t)
            | None => first_child_value (filter is_heading1 (children ast))
            end) as [t|e]; cbn [bind].
  2:{ split; [discriminate | intros (H & _); discriminate]. }
  destruct (match truthy_field meta meta_description with
            | Some d => Ok (Some d)
            | None => first_child_value (filter is_paragraph (children ast))
            end) as [d|e]; cbn [bind].
  2:{ split; [discriminate | intros (_ & H & _); discriminate]. }
  split.
  - intros H. inversion H; subst. cbn. repeat split.
  - intros (Ht & Hd & Hf & Hu & Hdate). destruct post; cbn in *.
    inversion Ht; inversion Hd; subst. reflexivity.
Qed.

Lemma readPostMetadata_Throw (e : exn) :
  extracted = Throw e <->
  (match truthy_field meta meta_title with
   | Some t => Ok (Some t)
   | None => first_child_value (filter is_heading1 (children ast))
   end = Throw e) \/
  (truthy_field meta meta_description = None /\
   first_child_value (filter is_paragraph (children ast)) = Throw e /\
   exists t, match truthy_field meta meta_title with
             | Some t => Ok (Some t)
             | None => first_child_value (filter is_heading1 (children ast))
             end = Ok t).
Proof.
  unfold extracted, readPostMetadata. rewrite compiled. cbn [bind].
  destruct (match truthy_field meta meta_title with
            | Some t => Ok (Some t)
            | None => first_child_value (filter is_heading1 (children ast))
            end) as [t|e']; cbn [bind].
  2:{ split; [intros H; left; now inversion H |].
      intros [H | (_ & _ & t & H)]; [now inversion H | discriminate]. }
  destruct (truthy_field meta meta_description) as [d|]; cbn [bind].
  { split; [discriminate|].
    intros [H | (H & _)]; discriminate. }
  destruct (first_child_value (filter is_paragraph (children ast)))
    as [d|e'']; cbn [bind].
  { split; [discriminate|].
    intros [H | (_ & H & _)]; discriminate. }
  split.
  - intros H. right. inversion H; subst.
    repeat split. now exists t.
  - intros [H | (_ & H & _)]; [discriminate | now inversion H].
Qed.

End ExtractionFacts.

(** With a source for the title and one for the description, the
    extraction returns a record. *)
Lemma readPostMetadata_succeeds
      (requireMDXFileSync : string -> result (option Meta * node))
      (Date_parse : string -> option Z) (clock : Z) (postPath : string)
      (meta : option Meta) (ast : node) :
  requireMDXFileSync postPath = Ok (meta, ast) ->
  ((exists t, meta_text meta meta_title t) \/
   (exists c, first_block_child is_heading1 ast c)) ->
  ((exists d, meta_text meta meta_description d) \/
   (exists c, first_block_child is_paragraph ast c)) ->
  exists post,
    readPostMetadata requireMDXFileSync Date_parse clock postPath = Ok post.
Proof.
  intros compiled Ht Hd.
    assert (exists t, match truthy_field meta meta_title with
                      | Some t => Ok (Some t)
                      | None => first_child_value
                                  (filter is_heading1 (children ast))
                      end = Ok t) as [t Et].
    { destruct (truthy_field meta meta_title) as [t|] eqn:E;
        [now exists (Some t)|].
      destruct Ht as [[t Ht] | [c Hc]].
      - apply truthy_field_Some in Ht. congruence.
      - exists (value c). apply first_child_value_Ok. now exists c. }
    assert (exists d, match truthy_field meta meta_description with
                      | Some d => Ok (Some d)
                      | None => first_child_value
                                  (filter is_paragraph (children ast))
                      end = Ok d) as [d Ed].
    { destruct (truthy_field meta meta_description) as [d|] eqn:E;
        [now exists (Some d)|].
      destruct Hd as [[d Hd] | [c Hc]].
      - apply truthy_field_Some in Hd. congruence.
      - exists (value c). apply first_child_value_Ok. now exists c. }
    exists {| filePath := postPath; urlPath := urlPath_of postPath;
              title := t;
              date := match meta with
                      | Some m => new_Date_from Date_parse (meta_date m)
                      | None => ValidDate clock
                      end;
              description := d |}.
    apply (readPostMetadata_Ok _ _ _ _ _ _ compiled). cbn.
    repeat split; assumption.
Qed.

(** C3 (amended). The title of a record is the [meta] title whenever the
    [meta] object exists and its title is a non-empty string; otherwise it
    is the value of the first child of the first depth-1 heading among the
    top-level blocks. The description is the non-empty [meta] description,
    otherwise the value of the first child of the first paragraph. When a
    field has neither source, the extraction throws and there is no
    record; when both fields have a source, there is one. *)
Theorem readPostMetadata_title_description
        (requireMDXFileSync : string -> result (option Meta * node))
        (Date_parse : string -> option Z) (clock : Z) (postPath : string)
        (meta : option Meta) (ast : node)
        (compiled : requireMDXFileSync postPath = Ok (meta, ast)) :
  let extracted :=
    readPostMetadata requireMDXFileSync Date_parse clock postPath in
  (forall post, extracted = Ok post ->
     (forall t, meta_text meta meta_title t -> title post = Some t) /\
     ((forall t, ~ meta_text meta meta_title t) ->
      exists c, first_block_child is_heading1 ast c /\ title post = value c) /\
     (forall d, meta_text meta meta_description d ->
      description post = Some d) /\
     ((forall d, ~ meta_text meta meta_description d) ->
      exists c, first_block_child is_paragraph ast c /\
                description post = value c))
  /\ ((forall t, ~ meta_text meta meta_title t) ->
      (forall c, ~ first_block_child is_heading1 ast c) ->
      extracted = Throw TypeError)
  /\ ((forall d, ~ meta_text meta meta_description d) ->
      (forall c, ~ first_block_child is_paragraph ast c) ->
      extracted = Throw TypeError)
  /\ (((exists t, meta_text meta meta_title t) \/
       (exists c, first_block_child is_heading1 ast c)) ->
      ((exists d, meta_text meta meta_description d) \/
       (exists c, first_block_child is_paragraph ast c)) ->
      exists post, extracted = Ok post).
Proof.
  intros extracted. subst extracted. repeat split.
  - intros t Ht. apply truthy_field_Some in Ht.
    apply (readPostMetadata_Ok _ _ _ _ _ _ compiled) in H.
    destruct H as (H & _). rewrite Ht in H. now inversion H.
  - intros Hno. apply truthy_field_None in Hno.
    apply (readPostMetadata_Ok _ _ _ _ _ _ compiled) in H.
    destruct H as (H & _). rewrite Hno in H.
    apply first_child_value_Ok in H. destruct H as (c & Hc & Hv).
    exists c. now split.
  - intros d Hd. apply truthy_field_Some in Hd.
    apply (readPostMetadata_Ok _ _ _ _ _ _ compiled) in H.
    destruct H as (_ & H & _). rewrite Hd in H. now inversion H.
  - intros Hno. apply truthy_field_None in Hno.
    apply (readPostMetadata_Ok _ _ _ _ _ _ compiled) in H.
    destruct H as (_ & H & _). rewrite Hno in H.
    apply first_child_value_Ok in H. destruct H as (c & Hc & Hv).
    exists c. now split.
  - intros Hno Hnone. apply truthy_field_None in Hno.
    apply (readPostMetadata_Throw _ _ _ _ _ _ compiled). left.
    rewrite Hno.
    destruct (first_child_value (filter is_heading1 (children ast)))
      as [v|e] eqn:E.
    + apply first_child_value_Ok in E. destruct E as (c & Hc & _).
      now apply Hnone in Hc.
    + apply first_child_value_Throw in E. now destruct E as [-> _].
  - intros Hno Hnone. apply truthy_field_None in Hno.
    destruct (first_child_value (filter is_paragraph (children ast)))
      as [v|e] eqn:E.
    { apply first_child_value_Ok in E. destruct E as (c & Hc & _).
      now apply Hnone in Hc. }
    apply first_child_value_Throw in E. destruct E as [-> _].
    destruct (readPostMetadata requireMDXFileSync Date_parse clock postPath)
      as [post|e] eqn:R.
    + apply (readPostMetadata_Ok _ _ _ _ _ _ compiled) in R.
      destruct R as (_ & R & _). rewrite Hno in R.
      apply first_child_value_Ok in R. destruct R as (c & Hc & _).
      now apply Hnone in Hc.
    + pose proof R as R'.
      apply (readPostMetadata_Throw _ _ _ _ _ _ compiled) in R'.
      destruct R' as [R' | (_ & R' & _)].
      * destruct (truthy_field meta meta_title); [discriminate|].
        apply first_child_value_Throw in R'. now destruct R' as [-> _].
      * apply first_child_value_Throw in R'. now destruct R' as [-> _].
  - now apply (readPostMetadata_succeeds _ _ _ _ _ _ compiled).
Qed.

(** C3 as it was claimed fails on a [meta] object whose title field is the
    empty string: the field exists, and the title is taken from the
    heading. *)
Lemma meta_title_field_not_always_used :
  ~ (forall requireMDXFileSync Date_parse clock postPath m ast post t,
        requireMDXFileSync postPath = Ok (Some m, ast) ->
        meta_title m = Some t ->
        readPostMetadata requireMDXFileSync Date_parse clock postPath = Ok post ->
        title post = Some t).
Proof.
  intros H.
  specialize (H (sample_require (Some untitled_meta) sample_ast)
                Date_parse_ISO 0 sample_path untitled_meta sample_ast
                _ "" eq_refl eq_refl eq_refl).
  cbn in H. discriminate.
Qed.

Lemma readPostMetadata_title_description_witness :
  exists post,
    readPostMetadata (sample_require (Some sample_meta) sample_ast)
                     Date_parse_ISO 0 sample_path = Ok post
    /\ title post = Some "Semigroups and Monoids"
    /\ description post = meta_description sample_meta.
Proof.
  pose proof (readPostMetadata_title_description
                (sample_require (Some sample_meta) sample_ast)
                Date_parse_ISO 0 sample_path (Some sample_meta) sample_ast
                eq_refl) as (Hfields & _ & _ & Hsome).
  destruct Hsome as [post Hpost].
  - right. exists (text_node "Semigroups and Monoids").
    eexists. split; reflexivity.
  - left. eexists. exists sample_meta.
    split; [reflexivity | split; [reflexivity | discriminate]].
  - exists post. split; [exact Hpost|].
    destruct (Hfields post Hpost) as (_ & Htitle & Hdesc & _). split.
    + destruct Htitle as (c & (h & Hh & Hc) & ->).
      * intros t (m & Em & Et & _). inversion Em; subst. discriminate.
      * cbn in Hh. inversion Hh; subst. cbn in Hc. now inversion Hc.
    + apply Hdesc. exists sample_meta.
      split; [reflexivity | split; [reflexivity | discriminate]].
Defined.

(** C4 (amended). The date of a record is the timestamp parsed from the
    [meta] date field when the [meta] object has one; it is the invalid
    date when the [meta] object exists without a date field; it is the
    wall-clock time of the extraction only when there is no [meta] object
    at all. *)
Theorem readPostMetadata_date
        (requireMDXFileSync : string -> result (option Meta * node))
        (Date_parse : string -> option Z) (clock : Z) (postPath : string)
        (meta : option Meta) (ast : node) (post : PostRecord)
        (compiled : requireMDXFileSync postPath = Ok (meta, ast))
        (extracted :
           readPostMetadata requireMDXFileSync Date_parse clock postPath
           = Ok post) :
  (forall m s, meta = Some m -> meta_date m = Some s ->
     date post = match Date_parse s with
                 | Some t => ValidDate t
                 | None => InvalidDate
                 end)
  /\ (forall m, meta = Some m -> meta_date m = None ->
        date post = InvalidDate)
  /\ (meta = None -> date post = ValidDate clock).
Proof.
  apply (readPostMetadata_Ok _ _ _ _ _ _ compiled) in extracted.
  destruct extracted as (_ & _ & _ & _ & Hdate). repeat split.
  - intros m s -> Hs. rewrite Hdate. unfold new_Date_from. now rewrite Hs.
  - intros m -> Hs. rewrite Hdate. unfold new_Date_from. now rewrite Hs.
  - intros ->. exact Hdate.
Qed.

(** C4 as it was claimed fails on a [meta] object without a date field:
    the date is the invalid date, not the clock reading. *)
Lemma missing_date_field_is_not_now :
  ~ (forall requireMDXFileSync Date_parse clock postPath m ast post,
        requireMDXFileSync postPath = Ok (Some m, ast) ->
        meta_date m = None ->
        readPostMetadata requireMDXFileSync Date_parse clock postPath = Ok post ->
        date post = ValidDate clock).
Proof.
  intros H.
  specialize (H (sample_require (Some undated_meta) sample_ast)
                Date_parse_ISO 1581841641579 sample_path undated_meta
                sample_ast _ eq_refl eq_refl eq_refl).
  cbn in H. discriminate.
Qed.

Lemma readPostMetadata_date_witness :
  exists post,
    readPostMetadata (sample_require (Some sample_meta) sample_ast)
                     Date_parse_ISO 0 sample_path = Ok post
    /\ date post = ValidDate 1581841641579.
Proof.
  eexists. split; [reflexivity|].
  exact (proj1 (readPostMetadata_date
                  (sample_require (Some sample_meta) sample_ast)
                  Date_parse_ISO 0 sample_path (Some sample_meta) sample_ast
                  _ eq_refl eq_refl)
               sample_meta "2020-02-16T08:27:21.579Z" eq_refl eq_refl).
Defined.

(** ** The pipeline *)

Lemma Array_map_from_In {A B : Type} (f : nat -> A -> result B)
      (l : list A) (i : nat) (ys : list B) :
  Array_map_from f i l = Ok ys ->
  forall y, In y ys ->
    exists k x, nth_error l k = Some x /\ f (i + k)%nat x = Ok y.
Proof.
  revert i ys. induction l as [|x l IH]; intros i ys H y Hy; cbn in H.
  - inversion H; subst. destruct Hy.
  - destruct (f i x) as [y0|e] eqn:E0; cbn in H; [|discriminate].
    destruct (Array_map_from f (S i) l) as [ys0|e] eqn:E1; cbn in H;
      [|discriminate].
    inversion H; subst. destruct Hy as [<- | Hy].
    + exists 0%nat, x. rewrite Nat.add_0_r. now split.
    + destruct (IH _ _ E1 _ Hy) as (k & x' & Hk & Hf).
      exists (S k), x'. split; [exact Hk|].
      now replace (i + S k)%nat with (S i + k)%nat by lia.
Qed.

Lemma Array_map_from_ext {A B : Type} (f g : nat -> A -> result B)
      (l : list A) (i : nat) :
  (forall k x, nth_error l k = Some x -> f (i + k)%nat x = g (i + k)%nat x) ->
  Array_map_from f i l = Array_map_from g i l.
Proof.
  revert i. induction l as [|x l IH]; intros i H; cbn; [reflexivity|].
  pose proof (H 0%nat x eq_refl) as H0. rewrite Nat.add_0_r in H0.
  rewrite H0. rewrite (IH (S i)); [reflexivity|].
  intros k x' Hk. specialize (H (S k) x' Hk).
  now replace (S i + k)%nat with (i + S k)%nat by lia.
Qed.

Lemma readPostMetadata_filePath
      (requireMDXFileSync : string -> result (option Meta * node))
      (Date_parse : string -> option Z) (clock : Z) (postPath : string)
      (post : PostRecord) :
  readPostMetadata requireMDXFileSync Date_parse clock postPath = Ok post ->
  filePath post = postPath.
Proof.
  intros H. destruct (requireMDXFileSync postPath) as [[meta ast]|e] eqn:E.
  - now apply (readPostMetadata_Ok _ _ _ _ _ _ E) in H.
  - unfold readPostMetadata in H. rewrite E in H. discriminate.
Qed.

Section PipelineFacts.

Variable requireMDXFileSync : string -> result (option Meta * node).
Variable Date_parse : string -> option Z.
Variable Rss_draw : list PostRecord -> string.
Variable entries : list (string * fsnode).
Variable now : Z.

(** Every published post was extracted from a scanned path and passed
    the date filter. *)
Lemma collect_In (clockAt : nat -> Z) (posts : list PostRecord) :
  collect requireMDXFileSync Date_parse entries now clockAt = Ok posts ->
  forall post, In post posts ->
    exists postPaths i,
      scanDir "pages/posts" ".mdx" entries = Some postPaths /\
      nth_error postPaths i = Some (filePath post) /\
      readPostMetadata requireMDXFileSync Date_parse (clockAt i)
                       (filePath post) = Ok post /\
      Date_le (date post) (ValidDate now) = true.
Proof.
  unfold collect. intros H post Hp.
  destruct (scanDir "pages/posts" ".mdx" entries) as [postPaths|];
    [|discriminate].
  unfold Array_map in H.
  destruct (Array_map_from _ 0%nat postPaths) as [records|e] eqn:E;
    cbn in H; [|discriminate].
  inversion H; subst. unfold assemble in Hp.
  apply Array_sort_In in Hp. apply filter_In in Hp.
  destruct Hp as [Hp Hd].
  destruct (Array_map_from_In _ _ _ _ E _ Hp) as (k & x & Hk & Hf).
  cbn in Hf. pose proof (readPostMetadata_filePath _ _ _ _ _ Hf) as Hx.
  subst x. exists postPaths, k. repeat split; assumption.
Qed.

(** A successful run leaves exactly the two artifacts of its post list. *)
Lemma main_Ok (clockAt : nat -> Z) (files out : FileStore) :
  main requireMDXFileSync Date_parse Rss_draw entries now clockAt files
  = Ok out ->
  exists posts,
    collect requireMDXFileSync Date_parse entries now clockAt = Ok posts /\
    out exportPath = Some (listing_module (JSON_stringify posts)) /\
    out rssPath = Some (Rss_draw posts) /\
    (forall path, path <> exportPath -> path <> rssPath ->
       out path = files path).
Proof.
  unfold main. intros H.
  destruct (collect _ _ _ _ _) as [posts|e]; cbn in H; [|discriminate].
  inversion H; subst. exists posts. repeat split.
  intros path H1 H2. unfold writeFileSync.
  apply String.eqb_neq in H1, H2. now rewrite H1, H2.
Qed.

End PipelineFacts.

(** C2. The published sequence holds exactly the records dated at or
    before [now], each as often as in the input; a record dated exactly
    [now] is published, and no record dated after [now] is. Both files of
    a successful run are written from such a sequence. *)
Theorem assemble_keeps_not_future (records : list PostRecord) (now : Z) :
  Permutation (assemble records (ValidDate now))
              (filter (fun post => Date_le (date post) (ValidDate now)) records)
  /\ (forall post : PostRecord,
        In post (assemble records (ValidDate now)) <->
        In post records /\ exists t, date post = ValidDate t /\ t <= now)
  /\ (forall post : PostRecord,
        In post records -> date post = ValidDate now ->
        In post (assemble records (ValidDate now)))
  /\ (forall (post : PostRecord) (t : Z),
        date post = ValidDate t -> now < t ->
        ~ In post (assemble records (ValidDate now)))
  /\ (forall requireMDXFileSync Date_parse Rss_draw entries clockAt files out,
        main requireMDXFileSync Date_parse Rss_draw entries now clockAt files
        = Ok out ->
        exists posts,
          out exportPath = Some (listing_module (JSON_stringify posts)) /\
          out rssPath = Some (Rss_draw posts) /\
          forall post, In post posts ->
                       exists t, date post = ValidDate t /\ t <= now).
Proof.
  assert (Hin : forall post : PostRecord,
        In post (assemble records (ValidDate now)) <->
        In post records /\ exists t, date post = ValidDate t /\ t <= now).
  { intros post. unfold assemble.
    rewrite Array_sort_In, filter_In, Date_le_valid. reflexivity. }
  split; [apply Array_sort_perm|].
  split; [exact Hin|]. split; [|split].
  - intros post Hp Hd. apply Hin. split; [assumption|].
    exists now. split; [assumption | lia].
  - intros post t Hd Hlt Hp. apply Hin in Hp.
    destruct Hp as (_ & t' & E & Hle). rewrite Hd in E.
    inversion E; subst. lia.
  - intros req parse draw entries clockAt files out Hmain.
    apply main_Ok in Hmain. destruct Hmain as (posts & Hc & He & Hr & _).
    exists posts. split; [exact He|]. split; [exact Hr|].
    intros post Hp.
    destruct (collect_In _ _ _ _ _ _ Hc post Hp) as (_ & _ & _ & _ & _ & Hle).
    now apply Date_le_valid.
Qed.

Lemma assemble_keeps_not_future_witness :
  In (post_dated "y" 7)
     (assemble [ post_dated "x" 5; post_dated "y" 7; post_dated "w" 8 ]
               (ValidDate 7))
  /\ ~ In (post_dated "w" 8)
          (assemble [ post_dated "x" 5; post_dated "y" 7; post_dated "w" 8 ]
                    (ValidDate 7)).
Proof.
  pose proof (assemble_keeps_not_future
                [ post_dated "x" 5; post_dated "y" 7; post_dated "w" 8 ] 7)
    as (_ & _ & Hnow & Hlater & _).
  split.
  - apply Hnow; [right; left; reflexivity | reflexivity].
  - apply (Hlater _ 8); [reflexivity | lia].
Defined.

Lemma readPostMetadata_clock
      (requireMDXFileSync : string -> result (option Meta * node))
      (Date_parse : string -> option Z) (clock1 clock2 : Z)
      (postPath : string) :
  (forall ast, requireMDXFileSync postPath = Ok (None, ast) ->
               clock1 = clock2) ->
  readPostMetadata requireMDXFileSync Date_parse clock1 postPath
  = readPostMetadata requireMDXFileSync Date_parse clock2 postPath.
Proof.
  intros H. unfold readPostMetadata.
  destruct (requireMDXFileSync postPath) as [[[m|] ast]|e]; cbn;
    [reflexivity | | reflexivity].
  now rewrite (H ast eq_refl).
Qed.

(** C9. A post whose module exports no [meta] object is dated with the
    clock reading of its extraction; whenever that reading is later than
    [now], the record fails the date filter, and neither artifact of a
    successful run has a post with that path. *)
Theorem no_meta_extracted_late_is_dropped
        (requireMDXFileSync : string -> result (option Meta * node))
        (Date_parse : string -> option Z)
        (Rss_draw : list PostRecord -> string)
        (entries : list (string * fsnode)) (now : Z) (clockAt : nat -> Z)
        (postPath : string) (ast : node)
        (compiled : requireMDXFileSync postPath = Ok (None, ast)) :
  (forall clock post,
      readPostMetadata requireMDXFileSync Date_parse clock postPath = Ok post ->
      date post = ValidDate clock /\
      (now < clock -> Date_le (date post) (ValidDate now) = false))
  /\ (forall postPaths,
        scanDir "pages/posts" ".mdx" entries = Some postPaths ->
        (forall i, nth_error postPaths i = Some postPath -> now < clockAt i) ->
        forall files out,
          main requireMDXFileSync Date_parse Rss_draw entries now clockAt files
          = Ok out ->
          exists posts,
            out exportPath = Some (listing_module (JSON_stringify posts)) /\
            out rssPath = Some (Rss_draw posts) /\
            forall post, In post posts -> filePath post <> postPath).
Proof.
  assert (Hdate : forall clock post,
      readPostMetadata requireMDXFileSync Date_parse clock postPath = Ok post ->
      date post = ValidDate clock /\
      (now < clock -> Date_le (date post) (ValidDate now) = false)).
  { intros clock post H.
    apply (readPostMetadata_Ok _ _ _ _ _ _ compiled) in H.
    destruct H as (_ & _ & _ & _ & ->). split; [reflexivity|].
    intros Hlt. cbn. apply Z.leb_gt. exact Hlt. }
  split; [exact Hdate|].
  intros postPaths Hscan Hlate files out Hmain.
  apply main_Ok in Hmain. destruct Hmain as (posts & Hc & He & Hr & _).
  exists posts. repeat split; [assumption | assumption |].
  intros post Hp Hpath.
  destruct (collect_In _ _ _ _ _ _ Hc post Hp)
    as (postPaths' & i & Hscan' & Hi & Hread & Hle).
  rewrite Hscan in Hscan'. inversion Hscan'; subst postPaths'.
  rewrite Hpath in Hi, Hread.
  destruct (Hdate _ _ Hread) as [_ Hfalse].
  rewrite (Hfalse (Hlate i Hi)) in Hle. discriminate.
Qed.

Lemma no_meta_extracted_late_is_dropped_witness :
  exists out,
    main (sample_require None sample_ast) Date_parse_ISO sample_draw
         sample_entries 10 (fun _ => 11) no_files = Ok out
    /\ exists posts,
         out exportPath = Some (listing_module (JSON_stringify posts)) /\
         out rssPath = Some (sample_draw posts) /\
         forall post, In post posts -> filePath post <> sample_path.
Proof.
  eexists. split; [reflexivity|].
  refine (proj2 (no_meta_extracted_late_is_dropped
                   (sample_require None sample_ast) Date_parse_ISO sample_draw
                   sample_entries 10 (fun _ => 11) sample_path sample_ast
                   eq_refl)
                [sample_path] eq_refl _ no_files _ eq_refl).
  intros i _. lia.
Defined.

(** C10. When the [meta] object has a date that the engine does not
    recognise, building the date does not throw: the record gets the
    invalid date, which fails [date <= now] for every [now]; the post is
    extracted as long as its title and description resolve, and neither
    artifact of a successful run has a post with that path. *)
Theorem unparseable_date_is_dropped
        (requireMDXFileSync : string -> result (option Meta * node))
        (Date_parse : string -> option Z)
        (Rss_draw : list PostRecord -> string)
        (entries : list (string * fsnode)) (now : Z) (clockAt : nat -> Z)
        (postPath : string) (m : Meta) (ast : node) (s : string)
        (compiled : requireMDXFileSync postPath = Ok (Some m, ast))
        (dated_s : meta_date m = Some s)
        (unparseable : Date_parse s = None) :
  new_Date_from Date_parse (meta_date m) = InvalidDate
  /\ (forall now', Date_le InvalidDate now' = false)
  /\ (forall clock post,
        readPostMetadata requireMDXFileSync Date_parse clock postPath = Ok post ->
        date post = InvalidDate)
  /\ (forall clock,
        ((exists t, meta_text (Some m) meta_title t) \/
         (exists c, first_block_child is_heading1 ast c)) ->
        ((exists d, meta_text (Some m) meta_description d) \/
         (exists c, first_block_child is_paragraph ast c)) ->
        exists post,
          readPostMetadata requireMDXFileSync Date_parse clock postPath
          = Ok post)
  /\ (forall files out,
        main requireMDXFileSync Date_parse Rss_draw entries now clockAt files
        = Ok out ->
        exists posts,
          out exportPath = Some (listing_module (JSON_stringify posts)) /\
          out rssPath = Some (Rss_draw posts) /\
          forall post, In post posts -> filePath post <> postPath).
Proof.
  assert (Hnew : new_Date_from Date_parse (meta_date m) = InvalidDate).
  { unfold new_Date_from. now rewrite dated_s, unparseable. }
  assert (Hdate : forall clock post,
        readPostMetadata requireMDXFileSync Date_parse clock postPath = Ok post ->
        date post = InvalidDate).
  { intros clock post H.
    apply (readPostMetadata_Ok _ _ _ _ _ _ compiled) in H.
    destruct H as (_ & _ & _ & _ & ->). exact Hnew. }
  split; [exact Hnew|]. split; [reflexivity|]. split; [exact Hdate|]. split.
  - intros clock.
    apply (readPostMetadata_succeeds _ Date_parse clock _ _ _ compiled).
  - intros files out Hmain.
    apply main_Ok in Hmain. destruct Hmain as (posts & Hc & He & Hr & _).
    exists posts. repeat split; [assumption | assumption |].
    intros post Hp Hpath.
    destruct (collect_In _ _ _ _ _ _ Hc post Hp)
      as (postPaths & i & _ & _ & Hread & Hle).
    rewrite Hpath in Hread. rewrite (Hdate _ _ Hread) in Hle. discriminate.
Qed.

Lemma unparseable_date_is_dropped_witness :
  exists out,
    main (sample_require (Some misdated_meta) sample_ast) Date_parse_ISO
         sample_draw sample_entries 1600000000000 (fun _ => 1600000000001)
         no_files = Ok out
    /\ exists posts,
         out exportPath = Some (listing_module (JSON_stringify posts)) /\
         out rssPath = Some (sample_draw posts) /\
         forall post, In post posts -> filePath post <> sample_path.
Proof.
  eexists. split; [reflexivity|].
  exact (proj2 (proj2 (proj2 (proj2
           (unparseable_date_is_dropped
              (sample_require (Some misdated_meta) sample_ast) Date_parse_ISO
              sample_draw sample_entries 1600000000000
              (fun _ => 1600000000001) sample_path misdated_meta sample_ast
              "next tuesday" eq_refl eq_refl eq_refl))))
           no_files _ eq_refl).
Defined.

(** C8 (amended). Two runs on the same documents with the same [now], and
    with the same clock reading at the extraction of every post that has
    no [meta] object, end alike: both throw the same exception, or both
    succeed with the same listing text and the same feed text, whatever
    the two files held before. Each file is replaced by its new text and
    no other file changes, so that a second run over the result of the
    first changes nothing. *)
Theorem main_deterministic
        (requireMDXFileSync : string -> result (option Meta * node))
        (Date_parse : string -> option Z)
        (Rss_draw : list PostRecord -> string)
        (entries : list (string * fsnode)) (now : Z)
        (clock1 clock2 : nat -> Z) (postPaths : list string)
        (scanned : scanDir "pages/posts" ".mdx" entries = Some postPaths)
        (same_clock :
           forall i postPath ast,
             nth_error postPaths i = Some postPath ->
             requireMDXFileSync postPath = Ok (None, ast) ->
             clock1 i = clock2 i) :
  forall files1 files2 : FileStore,
    match main requireMDXFileSync Date_parse Rss_draw entries now clock1 files1,
          main requireMDXFileSync Date_parse Rss_draw entries now clock2 files2
    with
    | Ok out1, Ok out2 =>
        out1 exportPath = out2 exportPath /\
        out1 rssPath = out2 rssPath /\
        (exists posts,
            out1 exportPath = Some (listing_module (JSON_stringify posts)) /\
            out1 rssPath = Some (Rss_draw posts)) /\
        (forall path, path <> exportPath -> path <> rssPath ->
                      out1 path = files1 path /\ out2 path = files2 path) /\
        (forall path, files2 path = out1 path -> out2 path = out1 path)
    | Throw e1, Throw e2 => e1 = e2
    | _, _ => False
    end.
Proof.
  intros files1 files2.
  assert (Hc : collect requireMDXFileSync Date_parse entries now clock1
               = collect requireMDXFileSync Date_parse entries now clock2).
  { unfold collect. rewrite scanned. unfold Array_map. f_equal.
    apply Array_map_from_ext. intros k x Hk. cbn.
    apply readPostMetadata_clock. intros ast Hx.
    exact (same_clock k x ast Hk Hx). }
  unfold main. rewrite <- Hc.
  destruct (collect requireMDXFileSync Date_parse entries now clock1)
    as [posts|e]; cbn; [|reflexivity].
  repeat split.
  - exists posts. now split.
  - unfold writeFileSync. apply String.eqb_neq in H, H0. now rewrite H, H0.
  - unfold writeFileSync. apply String.eqb_neq in H, H0. now rewrite H, H0.
  - intros path. unfold writeFileSync.
    destruct (String.eqb path rssPath); [reflexivity|].
    destruct (String.eqb path exportPath); [reflexivity|]. auto.
Qed.

(** C8 as it was claimed fails on a post without [meta] object: with the
    same documents and the same [now], a run that extracts it within the
    millisecond of [now] publishes it, and a run that extracts it one
    millisecond later does not. *)
Lemma same_now_different_listing :
  ~ (forall requireMDXFileSync Date_parse Rss_draw entries now
            clock1 clock2 files1 files2 out1 out2,
        main requireMDXFileSync Date_parse Rss_draw entries now clock1 files1
        = Ok out1 ->
        main requireMDXFileSync Date_parse Rss_draw entries now clock2 files2
        = Ok out2 ->
        out1 exportPath = out2 exportPath /\ out1 rssPath = out2 rssPath).
Proof.
  intros H.
  specialize (H (sample_require None sample_ast) Date_parse_ISO sample_draw
                sample_entries 1581841641579
                (fun _ => 1581841641579) (fun _ => 1581841641580)
                no_files no_files _ _ eq_refl eq_refl).
  destruct H as [_ H]. vm_compute in H. discriminate.
Qed.

Lemma main_deterministic_witness :
  match main (sample_require None sample_ast) Date_parse_ISO sample_draw
             sample_entries 1581841641579 (fun _ => 1581841641579) no_files,
        main (sample_require None sample_ast) Date_parse_ISO sample_draw
             sample_entries 1581841641579 (fun _ => 1581841641579)
             (writeFileSync exportPath "export default [];" no_files)
  with
  | Ok out1, Ok out2 =>
      out1 exportPath = out2 exportPath /\ out1 rssPath = out2 rssPath
  | _, _ => False
  end.
Proof.
  pose proof (main_deterministic
                (sample_require None sample_ast) Date_parse_ISO sample_draw
                sample_entries 1581841641579
                (fun _ => 1581841641579) (fun _ => 1581841641579)
                [sample_path] eq_refl (fun _ _ _ _ _ => eq_refl)
                no_files
                (writeFileSync exportPath "export default [];" no_files))
    as H.
  destruct (main _ _ _ _ _ _ no_files) as [out1|e1] eqn:E1;
    [|vm_compute in E1; discriminate E1].
  destruct (main _ _ _ _ _ _ (writeFileSync _ _ _)) as [out2|e2] eqn:E2;
    [|vm_compute in E2; discriminate E2].
  exact (conj (proj1 H) (proj1 (proj2 H))).
Defined.

(** ** The scan *)

Lemma ascii_compare_lt_trans (a b c : ascii) :
  Ascii.compare a b = Lt -> Ascii.compare b c = Lt -> Ascii.compare a c = Lt.
Proof.
  unfold Ascii.compare. rewrite !N.compare_lt_iff. apply N.lt_trans.
Qed.

Lemma string_compare_lt_trans (x y z : string) :
  String.compare x y = Lt -> String.compare y z = Lt ->
  String.compare x z = Lt.
Proof.
  revert y z. induction x as [|a x IH]; intros [|b y] [|c z]; cbn;
    try congruence.
  destruct (Ascii.compare a b) eqn:Eab; try discriminate;
    destruct (Ascii.compare b c) eqn:Ebc; try discriminate; intros Hxy Hyz.
  - apply Ascii.compare_eq_iff in Eab, Ebc. subst.
    replace (Ascii.compare c c) with Eq
      by (symmetry; apply N.compare_refl).
    now apply (IH y z).
  - apply Ascii.compare_eq_iff in Eab. subst. now rewrite Ebc.
  - apply Ascii.compare_eq_iff in Ebc. subst. now rewrite Eab.
  - now rewrite (ascii_compare_lt_trans a b c Eab Ebc).
Qed.

Lemma string_compare_refl (x : string) : String.compare x x = Eq.
Proof.
  induction x as [|a x IH]; cbn; [reflexivity|].
  replace (Ascii.compare a a) with Eq by (symmetry; apply N.compare_refl).
  exact IH.
Qed.

Lemma string_leb_trans (x y z : string) :
  String.leb x y = true -> String.leb y z = true -> String.leb x z = true.
Proof.
  unfold String.leb.
  destruct (String.compare x y) eqn:Exy; try discriminate;
    destruct (String.compare y z) eqn:Eyz; try discriminate; intros _ _.
  - apply String.compare_eq_iff in Exy, Eyz. subst.
    now rewrite string_compare_refl.
  - apply String.compare_eq_iff in Exy. subst. now rewrite Eyz.
  - apply String.compare_eq_iff in Eyz. subst. now rewrite Exy.
  - now rewrite (string_compare_lt_trans x y z Exy Eyz).
Qed.

Lemma sorted_names (names : list string) :
  StronglySorted (fun x y => String.leb x y = true)
                 (Array_sort string_compare_default names).
Proof.
  apply Array_sort_sorted with (D := fun _ => True).
  - intros x y _ _. unfold SortCompare, string_compare_default, String.leb.
    destruct (String.compare x y); [reflexivity | reflexivity | lia].
  - intros x y _ _. unfold SortCompare, string_compare_default, String.leb.
    rewrite (String.compare_antisym y x).
    destruct (String.compare x y); cbn; [lia | lia | reflexivity].
  - exact string_leb_trans.
  - apply Forall_forall. trivial.
Qed.

Lemma statSync_In (entries : list (string * fsnode)) (name : string)
      (st : fsnode) :
  NoDup (map fst entries) ->
  statSync entries name = Some st <-> In (name, st) entries.
Proof.
  induction entries as [|[n s] entries IH]; cbn; intros Hnd.
  - split; [discriminate | tauto].
  - inversion Hnd as [|? ? Hn Hnd']; subst.
    destruct (String.eqb_spec n name) as [->|Hne].
    + split.
      * intros H. inversion H; subst. now left.
      * intros [H | H]; [now inversion H|].
        exfalso. apply Hn. apply (in_map fst) in H. exact H.
    + rewrite (IH Hnd'). split; [now right|].
      intros [H | H]; [inversion H; congruence | exact H].
Qed.

Lemma map_stat_of_self (entries all : list (string * fsnode)) :
  NoDup (map fst all) -> incl entries all ->
  map (stat_of all) (map fst entries) = entries.
Proof.
  intros Hnd. induction entries as [|[n s] entries IH]; intros Hincl;
    [reflexivity|].
  cbn. rewrite IH by (intros e He; apply Hincl; now right).
  f_equal. unfold stat_of.
  assert (statSync all n = Some s) as ->
      by (apply statSync_In; [assumption | apply Hincl; now left]).
  reflexivity.
Qed.

Lemma stat_of_sorted_perm (entries : list (string * fsnode))
      (names : list string) :
  NoDup (map fst entries) ->
  Permutation names (map fst entries) ->
  Permutation (map (stat_of entries) names) entries.
Proof.
  intros Hnd Hp.
  rewrite <- (map_stat_of_self entries entries Hnd (incl_refl _)) at 2.
  now apply Permutation_map.
Qed.

Lemma height_child (entries : list (string * fsnode)) (name : string)
      (st : fsnode) :
  In (name, st) entries ->
  (height st < height (Directory entries))%nat.
Proof.
  cbn [height]. intros H. apply Nat.lt_succ_r.
  induction entries as [|e entries IH]; [destruct H|].
  cbn [fold_right]. destruct H as [-> | H]; cbn [snd].
  - apply Nat.le_max_l.
  - etransitivity; [now apply IH | apply Nat.le_max_r].
Qed.

Lemma unique_names_child (entries : list (string * fsnode)) (name : string)
      (st : fsnode) :
  unique_names (Directory entries) -> In (name, st) entries ->
  unique_names st.
Proof.
  cbn [unique_names]. intros [_ H] Hin.
  induction entries as [|e entries IH]; [destruct Hin|].
  cbn [fold_right] in H. destruct H as [He H].
  destruct Hin as [-> | Hin]; [exact He | now apply IH].
Qed.

Lemma Forall2_In_l {A B : Type} (R : A -> B -> Prop) (l1 : list A)
      (l2 : list B) (x : A) :
  Forall2 R l1 l2 -> In x l1 -> exists y, In y l2 /\ R x y.
Proof.
  induction 1 as [|a b l1 l2 Hab _ IH]; intros Hx; [destruct Hx|].
  destruct Hx as [-> | Hx].
  - exists b. split; [now left | assumption].
  - destruct (IH Hx) as (y & Hy & Hr). exists y. split; [now right | assumption].
Qed.

Lemma Forall2_In_r {A B : Type} (R : A -> B -> Prop) (l1 : list A)
      (l2 : list B) (y : B) :
  Forall2 R l1 l2 -> In y l2 -> exists x, In x l1 /\ R x y.
Proof.
  induction 1 as [|a b l1 l2 Hab _ IH]; intros Hy; [destruct Hy|].
  destruct Hy as [-> | Hy].
  - exists a. split; [now left | assumption].
  - destruct (IH Hy) as (x & Hx & Hr). exists x. split; [now right | assumption].
Qed.

Lemma Forall2_map_l {A B C : Type} (f : A -> C) (R : C -> B -> Prop)
      (l1 : list A) (l2 : list B) :
  Forall2 (fun a b => R (f a) b) l1 l2 -> Forall2 R (map f l1) l2.
Proof. induction 1; cbn; constructor; assumption. Qed.

Lemma StronglySorted_map {A B : Type} (f : A -> B) (R : B -> B -> Prop)
      (l : list A) :
  StronglySorted (fun x y => R (f x) (f y)) l -> StronglySorted R (map f l).
Proof.
  induction 1 as [|x l _ IH Hx]; cbn; constructor; [assumption|].
  apply Forall_forall. intros y Hy. apply in_map_iff in Hy.
  destruct Hy as (z & <- & Hz).
  rewrite Forall_forall in Hx. now apply Hx.
Qed.

Section ScanStep.

Variables (ext dirPath : string) (entries : list (string * fsnode)).
Variable fuel : nat.
Variable rec : string -> list (string * fsnode) -> list string
               -> option (list string).

Hypothesis rec_collects :
  forall p sub acc,
    unique_names (Directory sub) ->
    (height (Directory sub) <= fuel)%nat ->
    exists out, rec p sub acc = Some (acc ++ out)%list /\
                collects ext p (Directory sub) out.

Hypothesis entries_unique : unique_names (Directory entries).
Hypothesis entries_height : (height (Directory entries) <= S fuel)%nat.

Lemma scan_callback_collects (acc : list string) (name : string)
      (st : fsnode) :
  In (name, st) entries ->
  exists out,
    scan_callback rec ext dirPath entries (Some acc) name
    = Some (acc ++ out)%list /\
    collects ext (path_join dirPath name) st out.
Proof.
  intros Hin. unfold scan_callback.
  assert (statSync entries name = Some st) as ->
      by (apply statSync_In; [apply entries_unique | assumption]).
  destruct st as [|sub|]; cbn [isFile andb].
  - exists (if endsWith (path_join dirPath name) ext
            then [path_join dirPath name] else []).
    split.
    + destruct (endsWith (path_join dirPath name) ext);
        [reflexivity | now rewrite app_nil_r].
    + split; [constructor|]. intros q. split.
      * destruct (endsWith (path_join dirPath name) ext) eqn:E;
          [|intros []].
        intros [<- | []]. split; [constructor | assumption].
      * intros [Hf He]. inversion Hf; subst. rewrite He. now left.
  - apply rec_collects.
    + eapply unique_names_child; eassumption.
    + pose proof (height_child _ _ _ Hin). lia.
  - exists []. split; [now rewrite app_nil_r|].
    split; [constructor|]. intros q. split; [intros [] |].
    intros [Hf _]. inversion Hf.
Qed.

Lemma scan_fold_collects (names : list string) (acc : list string) :
  incl names (map fst entries) ->
  exists outs,
    fold_left (scan_callback rec ext dirPath entries) names (Some acc)
    = Some (acc ++ List.concat outs)%list /\
    Forall2 (fun name out =>
               collects ext (path_join dirPath name)
                        (snd (stat_of entries name)) out)
            names outs.
Proof.
  revert acc. induction names as [|name names IH]; intros acc Hincl.
  - exists []. cbn. rewrite app_nil_r. split; [reflexivity | constructor].
  - assert (exists st, In (name, st) entries) as [st Hst].
    { assert (In name (map fst entries)) as H by (apply Hincl; now left).
      apply in_map_iff in H. destruct H as ([n st] & E & H).
      cbn in E. subst n. now exists st. }
    destruct (scan_callback_collects acc name st Hst) as (out & Hout & Hc).
    destruct (IH (acc ++ out)%list) as (outs & Houts & Hf).
    { intros n Hn. apply Hincl. now right. }
    exists (out :: outs). cbn [fold_left List.concat].
    rewrite Hout, Houts, app_assoc. split; [reflexivity|].
    constructor; [|exact Hf].
    unfold stat_of.
    assert (statSync entries name = Some st) as ->
        by (apply statSync_In; [apply entries_unique | assumption]).
    exact Hc.
Qed.

End ScanStep.

Lemma scan_collects (fuel : nat) (ext dirPath : string)
      (entries : list (string * fsnode)) (acc : list string) :
  unique_names (Directory entries) ->
  (height (Directory entries) <= fuel)%nat ->
  exists out, scan fuel ext dirPath entries acc = Some (acc ++ out)%list /\
              collects ext dirPath (Directory entries) out.
Proof.
  revert dirPath entries acc.
  induction fuel as [|fuel IH]; intros dirPath entries acc Hu Hh.
  { cbn in Hh. lia. }
  cbn [scan]. unfold readdirSync.
  set (names := Array_sort string_compare_default (map fst entries)).
  assert (Hperm : Permutation names (map fst entries))
    by apply Array_sort_perm.
  destruct (scan_fold_collects ext dirPath entries fuel (scan fuel ext)
              (fun p sub acc' => IH p sub acc') Hu Hh names acc)
    as (outs & Hfold & Hall).
  { intros n Hn. eapply Permutation_in; eassumption. }
  exists (List.concat outs). split; [exact Hfold|].
  destruct Hu as [Hnd Hsub]. split.
  - apply visit_dir with (sorted := map (stat_of entries) names).
    + now apply stat_of_sorted_perm.
    + apply StronglySorted_map. unfold name_le, stat_of. cbn [fst].
      apply sorted_names.
    + apply Forall2_map_l. unfold stat_of at 1. cbn [fst].
      eapply Forall2_impl; [|exact Hall].
      intros n out [Hv _]. exact Hv.
  - intros q. rewrite in_concat. split.
    + intros (out & Hout & Hq).
      destruct (Forall2_In_r _ _ _ _ Hall Hout) as (n & Hn & _ & Hmem).
      apply Hmem in Hq. destruct Hq as [Hf He]. split; [|exact He].
      assert (In n (map fst entries)) as Hn'
          by (eapply Permutation_in; eassumption).
      apply in_map_iff in Hn'. destruct Hn' as ([n' st] & E & Hin).
      cbn in E. subst n'. unfold stat_of in Hf.
      rewrite (proj2 (statSync_In entries n st Hnd) Hin) in Hf.
      cbn [snd] in Hf. econstructor; eassumption.
    + intros [Hf He]. inversion Hf as [|? ? n st ? Hin Hf']; subst.
      assert (In n names) as Hn.
      { eapply Permutation_in; [apply Permutation_sym, Hperm|].
        apply (in_map fst) in Hin. exact Hin. }
      destruct (Forall2_In_l _ _ _ _ Hall Hn) as (out & Hout & _ & Hmem).
      exists out. split; [exact Hout|]. apply Hmem.
      unfold stat_of.
      rewrite (proj2 (statSync_In entries n st Hnd) Hin). cbn [snd].
      now split.
Qed.

(** Entries with distinct names have one sorted arrangement. *)
Lemma sorted_perm_unique (l1 l2 : list (string * fsnode)) :
  StronglySorted name_le l1 -> StronglySorted name_le l2 ->
  Permutation l1 l2 -> NoDup (map fst l1) -> l1 = l2.
Proof.
  revert l2. induction l1 as [|a l1 IH]; intros l2 S1 S2 Hp Hnd.
  - apply Permutation_nil in Hp. now subst.
  - destruct l2 as [|b l2].
    { apply Permutation_sym, Permutation_nil in Hp. discriminate. }
    assert (a = b) as ->.
    { assert (In a (b :: l2)) as Ha
          by (eapply Permutation_in; [exact Hp | now left]).
      assert (In b (a :: l1)) as Hb
          by (eapply Permutation_in; [apply Permutation_sym, Hp | now left]).
      destruct Ha as [Ha | Ha]; [now subst|].
      destruct Hb as [Hb | Hb]; [now subst|].
      inversion S1 as [|? ? _ H1]; inversion S2 as [|? ? _ H2]; subst.
      rewrite Forall_forall in H1, H2.
      pose proof (String.leb_antisym _ _ (H1 _ Hb) (H2 _ Ha)) as E.
      inversion Hnd as [|? ? Hn _]; subst. exfalso. apply Hn.
      rewrite E. now apply in_map. }
    f_equal. inversion S1; inversion S2; inversion Hnd; subst.
    apply IH; try assumption. eapply Permutation_cons_inv; eassumption.
Qed.

(** The visit of a tree collects one list. *)
Lemma visit_functional (n : nat) (ext p : string) (st : fsnode)
      (out1 out2 : list string) :
  (height st < n)%nat -> unique_names st ->
  visit ext p st out1 -> visit ext p st out2 -> out1 = out2.
Proof.
  revert p st out1 out2.
  induction n as [|n IH]; intros p st out1 out2 Hh Hu V1 V2; [lia|].
  inversion V1 as [| |? entries s1 outs1 P1 S1 F1]; subst;
    inversion V2 as [| |? ? s2 outs2 P2 S2 F2]; subst; try reflexivity.
  assert (s1 = s2) as ->.
  { apply sorted_perm_unique; try assumption.
    - eapply perm_trans; [exact P1 | apply Permutation_sym, P2].
    - destruct Hu as [Hnd _].
      eapply Permutation_NoDup; [|exact Hnd].
      apply Permutation_map, Permutation_sym, P1. }
  f_equal.
  assert (Hin : forall e, In e s2 -> In e entries)
    by (intros e He; eapply Permutation_in; eassumption).
  clear P1 P2 S1 S2 V1 V2.
  revert outs2 F2. induction F1 as [|e o1 s outs1 Ho1 _ IHF];
    intros outs2 F2; inversion F2 as [|? o2 ? outs2' Ho2 F2']; subst;
    [reflexivity|].
  f_equal.
  - destruct e as [name st]. cbn [fst snd] in *.
    assert (In (name, st) entries) as He by (apply Hin; now left).
    eapply IH; [| |exact Ho1|exact Ho2].
    + pose proof (height_child _ _ _ He). lia.
    + eapply unique_names_child; eassumption.
  - apply IHF; [|assumption]. intros e' He'. apply Hin. now right.
Qed.

(** C7. On every directory tree (the names of a directory being distinct),
    [scanDir] returns a list: the one, and there is only one, collected by
    visiting each directory's entries in the lexicographic order of their
    names, depth first. A path is in the list if and only if it leads to a
    regular file of the tree and ends with the extension, compared code
    unit by code unit. A second scan of the same tree returns the same
    list. *)
Theorem scanDir_sorted_depth_first
        (dirPath extension : string) (entries : list (string * fsnode))
        (distinct : unique_names (Directory entries)) :
  exists mdxFiles,
    scanDir dirPath extension entries = Some mdxFiles
    /\ visit extension dirPath (Directory entries) mdxFiles
    /\ (forall q, In q mdxFiles <->
                  file_at dirPath (Directory entries) q /\
                  exists prefix, q = prefix ++ extension)
    /\ (forall out, visit extension dirPath (Directory entries) out ->
                    out = mdxFiles)
    /\ (forall again, scanDir dirPath extension entries = Some again ->
                      again = mdxFiles).
Proof.
  destruct (scan_collects (height (Directory entries)) extension dirPath
                          entries [] distinct (Nat.le_refl _))
    as (out & Hscan & Hvisit & Hmem).
  exists out. unfold scanDir. cbn [app] in Hscan.
  split; [exact Hscan|]. split; [exact Hvisit|]. split; [|split].
  - intros q. rewrite Hmem, endsWith_spec. reflexivity.
  - intros out' Hout'.
    apply (visit_functional (S (height (Directory entries))) extension
                            dirPath (Directory entries));
      [lia | assumption | assumption | assumption].
  - intros again H. rewrite Hscan in H. now inversion H.
Qed.

Example scanDir_sample_tree :
  scanDir "pages/posts" ".mdx" sample_tree
  = Some [ "pages/posts/drafts/wip.mdx";
           "pages/posts/hello.mdx";
           "pages/posts/semigroups-and-monoids.mdx" ].
Proof. reflexivity. Qed.

Lemma scanDir_sorted_depth_first_witness :
  exists mdxFiles,
    scanDir "pages/posts" ".mdx" sample_tree = Some mdxFiles
    /\ (forall q, In q mdxFiles <->
                  file_at "pages/posts" (Directory sample_tree) q /\
                  exists prefix, q = prefix ++ ".mdx").
Proof.
  destruct (scanDir_sorted_depth_first "pages/posts" ".mdx" sample_tree)
    as (mdxFiles & Hscan & _ & Hmem & _).
  - cbn. repeat split; repeat constructor; cbn; intuition discriminate.
  - exists mdxFiles. split; assumption.
Defined.

(** ** The listing *)

Lemma parse_chars_quote_char (c : ascii) (text : string) :
  parse_chars (quote_char c ++ text) = cons_char c (parse_chars text).
Proof.
  destruct c as [[] [] [] [] [] [] [] []]; reflexivity.
Qed.

Lemma parse_chars_quote_chars (s rest : string) :
  parse_chars (quote_chars s ++ DQ ++ rest) = Some (s, rest).
Proof.
  induction s as [|c s IH]; [reflexivity|].
  cbn [quote_chars]. rewrite append_assoc, parse_chars_quote_char, IH.
  reflexivity.
Qed.

Lemma parse_chars_QuoteJSONString (s rest : string) :
  exists text,
    QuoteJSONString s ++ rest = String "034" text /\
    parse_chars text = Some (s, rest).
Proof.
  exists (quote_chars s ++ DQ ++ rest). split.
  - unfold QuoteJSONString. cbn. now rewrite append_assoc.
  - apply parse_chars_quote_chars.
Qed.


(** Literal prefixes are brought to the front of a text. *)
Ltac norm := unfold LF, DQ in *; cbn [append] in *.

Lemma parse_value_scalar (fuel : nat) (v : JSValue) (rest : string) :
  scalar v ->
  parse_value (S fuel) (scalar_text v ++ rest) = Some (v, rest).
Proof.
  intros Hs. destruct v as [| |s| | |]; try (exfalso; exact Hs);
    [reflexivity|].
  cbn [scalar_text].
  destruct (parse_chars_QuoteJSONString s rest) as (text & -> & P).
  cbn. now rewrite P.
Qed.

Lemma parse_value_space (fuel : nat) (text : string) :
  parse_value fuel (String " " text) = parse_value fuel text.
Proof. destruct fuel; reflexivity. Qed.

Lemma concat_cons2 (sep x y : string) (l : list string) :
  String.concat sep (x :: y :: l) = x ++ sep ++ String.concat sep (y :: l).
Proof. reflexivity. Qed.

(** One member at the indentation of an object of the array. *)
Lemma member_text_parts (fuel : nat) (kv : string * JSValue) (rest : string) :
  scalar (snd kv) ->
  exists text value_text,
    LF ++ "    " ++ member_text kv ++ rest
    = String "010" (String " " (String " " (String " " (String " "
        (String "034" text))))) /\
    parse_chars text = Some (fst kv, String ":" value_text) /\
    parse_value (S fuel) value_text = Some (snd kv, rest).
Proof.
  intros Hs. unfold member_text. rewrite !append_assoc.
  destruct (parse_chars_QuoteJSONString (fst kv)
              (": " ++ scalar_text (snd kv) ++ rest)) as (text & E & P).
  exists text, (" " ++ scalar_text (snd kv) ++ rest). norm.
  split; [now rewrite E | split; [exact P|]].
  rewrite parse_value_space. now apply parse_value_scalar.
Qed.

Lemma parse_members_step (fuel : nat) (text value_text rest : string)
      (key : string) (v : JSValue) :
  parse_chars text = Some (key, String ":" value_text) ->
  parse_value fuel value_text = Some (v, rest) ->
  parse_members (S fuel)
    (String "010" (String " " (String " " (String " " (String " "
       (String "034" text))))))
  = match skip_ws rest with
    | EmptyString => None
    | String c r =>
        if Ascii.eqb c "," then
          match parse_members fuel r with
          | Some (ms, r') => Some ((key, v) :: ms, r')
          | None => None
          end
        else if Ascii.eqb c "}" then Some ([(key, v)], r)
        else None
    end.
Proof.
  intros P V. cbn. rewrite P. cbn. rewrite V. reflexivity.
Qed.

Lemma parse_members_scalars (props : list (string * JSValue))
      (kv : string * JSValue) (fuel : nat) (rest : string) :
  Forall (fun p => scalar (snd p)) (kv :: props) ->
  (List.length props < fuel)%nat ->
  parse_members (S fuel)
    (LF ++ "    "
     ++ String.concat ("," ++ LF ++ "    ") (map member_text (kv :: props))
     ++ LF ++ "  " ++ "}" ++ rest)
  = Some (kv :: props, rest).
Proof.
  revert kv fuel. induction props as [|kv' props IH]; intros kv fuel Hs Hf;
    inversion Hs as [|? ? Hv Hs']; subst;
    (destruct fuel as [|fuel]; [cbn in Hf; lia|]).
  - cbn [map String.concat].
    destruct (member_text_parts fuel kv (LF ++ "  " ++ "}" ++ rest) Hv)
      as (text & vt & -> & P & V).
    rewrite (parse_members_step _ _ _ _ _ _ P V).
    destruct kv. reflexivity.
  - remember (LF ++ "    "
               ++ String.concat ("," ++ LF ++ "    ")
                    (map member_text (kv' :: props))
               ++ LF ++ "  " ++ "}" ++ rest) as tail eqn:Etail.
    replace (LF ++ "    "
             ++ String.concat ("," ++ LF ++ "    ")
                  (map member_text (kv :: kv' :: props))
             ++ LF ++ "  " ++ "}" ++ rest)
      with (LF ++ "    " ++ member_text kv ++ "," ++ tail)
      by (subst tail; cbn [map]; rewrite concat_cons2, !append_assoc;
          reflexivity).
    destruct (member_text_parts fuel kv ("," ++ tail) Hv)
      as (text & vt & -> & P & V).
    rewrite (parse_members_step _ _ _ _ _ _ P V). cbn -[parse_members].
    subst tail. rewrite IH; [now destruct kv | assumption | cbn in Hf; lia].
Qed.

Lemma parse_value_object (props : list (string * JSValue))
      (kv : string * JSValue) (fuel : nat) (rest : string) :
  Forall (fun p => scalar (snd p)) (kv :: props) ->
  (List.length props < fuel)%nat ->
  parse_value (S (S fuel)) (LF ++ "  " ++ object_text (kv :: props) ++ rest)
  = Some (JObject (kv :: props), rest).
Proof.
  intros Hs Hf. unfold object_text. rewrite !append_assoc.
  pose proof (parse_members_scalars props kv fuel rest Hs Hf) as M.
  remember (LF ++ "    "
            ++ String.concat ("," ++ LF ++ "    ")
                 (map member_text (kv :: props))
            ++ LF ++ "  " ++ "}" ++ rest) as body eqn:Ebody.
  assert (exists text, skip_ws body = String "034" text) as [text Hq].
  { inversion Hs as [|? ? Hv _]; subst.
    destruct props as [|kv' props].
    - destruct (member_text_parts 0 kv (LF ++ "  " ++ "}" ++ rest) Hv)
        as (text & vt & E & _).
      exists text. cbn [map String.concat]. rewrite E. reflexivity.
    - destruct (member_text_parts 0 kv
                  ("," ++ LF ++ "    "
                   ++ String.concat ("," ++ LF ++ "    ")
                        (map member_text (kv' :: props))
                   ++ LF ++ "  " ++ "}" ++ rest) Hv)
        as (text & vt & E & _).
      exists text. cbn [map]. rewrite concat_cons2, !append_assoc.
      cbn [map] in E. rewrite E. reflexivity. }
  change (LF ++ "  " ++ "{" ++ body) with
    (String "010" (String " " (String " " (String "{" body)))).
  cbn -[parse_members]. rewrite Hq. cbn -[parse_members]. now rewrite M.
Qed.

Lemma parse_elements_step (fuel : nat) (text rest : string) (v : JSValue) :
  parse_value fuel text = Some (v, rest) ->
  parse_elements (S fuel) text
  = match skip_ws rest with
    | EmptyString => None
    | String c r =>
        if Ascii.eqb c "," then
          match parse_elements fuel r with
          | Some (vs, r') => Some (v :: vs, r')
          | None => None
          end
        else if Ascii.eqb c "]" then Some ([v], r)
        else None
    end.
Proof. intros V. cbn. now rewrite V. Qed.

(** The objects of an array, after the opening bracket. *)
Lemma parse_elements_objects (objs : list (list (string * JSValue)))
      (kv : string * JSValue) (props : list (string * JSValue))
      (fuel : nat) (rest : string) :
  Forall (fun o => o <> [] /\ Forall (fun p => scalar (snd p)) o
                   /\ (List.length o <= 5)%nat)
         ((kv :: props) :: objs) ->
  (List.length objs + 7 <= fuel)%nat ->
  parse_elements (S fuel)
    (LF ++ "  "
     ++ String.concat ("," ++ LF ++ "  ")
          (map object_text ((kv :: props) :: objs))
     ++ LF ++ "]" ++ rest)
  = Some (map JObject ((kv :: props) :: objs), rest).
Proof.
  revert kv props fuel.
  induction objs as [|o objs IH]; intros kv props fuel Ho Hf;
    inversion Ho as [|? ? (_ & Hs & Hl) Ho']; subst;
    (destruct fuel as [|fuel]; [lia|]);
    (destruct fuel as [|fuel]; [lia|]).
  - cbn [map String.concat].
    rewrite (parse_elements_step _ _ (LF ++ "]" ++ rest)
                                 (JObject (kv :: props))).
    + reflexivity.
    + apply parse_value_object; [assumption | cbn in Hl, Hf; lia].
  - remember (LF ++ "  "
              ++ String.concat ("," ++ LF ++ "  ") (map object_text (o :: objs))
              ++ LF ++ "]" ++ rest) as tail eqn:Etail.
    replace (LF ++ "  "
             ++ String.concat ("," ++ LF ++ "  ")
                  (map object_text ((kv :: props) :: o :: objs))
             ++ LF ++ "]" ++ rest)
      with (LF ++ "  " ++ object_text (kv :: props) ++ "," ++ tail)
      by (subst tail; cbn [map]; rewrite concat_cons2, !append_assoc;
          reflexivity).
    rewrite (parse_elements_step _ _ ("," ++ tail) (JObject (kv :: props))).
    + cbn -[parse_elements]. subst tail.
      destruct o as [|kv' props']; [inversion Ho' as [|? ? (H & _) _]; now elim H|].
      rewrite IH; [reflexivity | assumption | cbn in Hf; lia].
    + apply parse_value_object; [assumption | cbn in Hl, Hf; lia].
Qed.

Lemma SerializeJSONProperty_post (post : PostRecord) :
  SerializeJSONProperty "  " (post_object post)
  = Some (object_text (post_props post)).
Proof.
  destruct post as [fp up [t|] [d|] [ds|]]; reflexivity.
Qed.

Lemma JSON_stringify_eq (posts : list PostRecord) :
  JSON_stringify posts
  = match posts with
    | [] => "[]"
    | _ => "[" ++ LF ++ "  "
           ++ String.concat ("," ++ LF ++ "  ")
                (map object_text (map post_props posts))
           ++ LF ++ "]"
    end.
Proof.
  unfold JSON_stringify. cbn [SerializeJSONProperty].
  rewrite !map_map.
  rewrite (map_ext _ (fun post => object_text (post_props post))).
  - destruct posts; reflexivity.
  - intros post. change ("" ++ "  ") with "  ".
    now rewrite SerializeJSONProperty_post.
Qed.

Lemma post_props_scalars (post : PostRecord) :
  post_props post <> [] /\
  Forall (fun p => scalar (snd p)) (post_props post) /\
  (List.length (post_props post) <= 5)%nat.
Proof.
  unfold post_props.
  split; [discriminate|]. split.
  - apply Forall_app; split; [repeat constructor|].
    apply Forall_app; split;
      [destruct (title post); repeat constructor|].
    apply Forall_app; split;
      [constructor; [destruct (date post); exact I | constructor]|].
    destruct (description post); repeat constructor.
  - rewrite !length_app. cbn [List.length].
    destruct (title post), (description post); cbn; lia.
Qed.

Lemma parse_value_JSON_stringify (posts : list PostRecord) (fuel : nat)
      (rest : string) :
  (List.length posts + 9 <= fuel)%nat ->
  parse_value fuel (JSON_stringify posts ++ rest)
  = Some (JArray (map post_data posts), rest).
Proof.
  intros Hf. rewrite JSON_stringify_eq.
  destruct fuel as [|fuel]; [lia|].
  destruct posts as [|post posts]; [reflexivity|].
  rewrite !append_assoc.
  remember (LF ++ "  "
            ++ String.concat ("," ++ LF ++ "  ")
                 (map object_text (map post_props (post :: posts)))
            ++ LF ++ "]" ++ rest) as body eqn:Ebody.
  assert (Hbody : parse_elements fuel body
                  = Some (map JObject (map post_props (post :: posts)), rest)).
  { subst body. cbn [map].
    destruct (post_props post) as [|kv props] eqn:Ep.
    { now destruct (post_props_scalars post) as [H _]. }
    destruct fuel as [|fuel]; [cbn in Hf; lia|].
    apply parse_elements_objects.
    - constructor.
      + rewrite <- Ep. apply post_props_scalars.
      + apply Forall_forall. intros o Ho. apply in_map_iff in Ho.
        destruct Ho as (p & <- & _). apply post_props_scalars.
    - rewrite length_map. cbn in Hf. lia. }
  assert (exists text, skip_ws body = String "{" text) as [text Hq].
  { subst body. cbn [map].
    destruct (map object_text (map post_props posts)) as [|o os].
    - cbn [String.concat]. unfold object_text. eexists. reflexivity.
    - rewrite concat_cons2. unfold object_text at 1. eexists. reflexivity. }
  change ("[" ++ body) with (String "[" body).
  cbn -[parse_elements]. rewrite Hq. cbn -[parse_elements].
  rewrite Hbody. now rewrite map_map.
Qed.

Lemma length_concat_ge (sep : string) (l : list string) :
  Forall (fun x => (1 <= String.length x)%nat) l ->
  (List.length l <= String.length (String.concat sep l))%nat.
Proof.
  induction l as [|x l IH]; intros Hl; [cbn; lia|].
  inversion Hl as [|? ? Hx Hl']; subst.
  destruct l as [|y l]; [cbn; lia|].
  rewrite concat_cons2, !length_append.
  specialize (IH Hl'). cbn [List.length] in *. lia.
Qed.

Lemma length_JSON_stringify (posts : list PostRecord) :
  (List.length posts <= String.length (JSON_stringify posts))%nat.
Proof.
  rewrite JSON_stringify_eq. destruct posts as [|post posts]; [cbn; lia|].
  rewrite !length_append.
  pose proof (length_concat_ge ("," ++ LF ++ "  ")
                (map object_text (map post_props (post :: posts)))) as H.
  rewrite !length_map in H. 
  assert (Hl : Forall (fun x => (1 <= String.length x)%nat)
                      (map object_text (map post_props (post :: posts)))).
  { apply Forall_forall. intros x Hx. apply in_map_iff in Hx.
    destruct Hx as (o & <- & _). unfold object_text. cbn. lia. }
  specialize (H Hl). lia.
Qed.

Lemma listing_default_export_JSON (posts : list PostRecord) :
  listing_default_export (listing_module (JSON_stringify posts))
  = Some (JArray (map post_data posts)).
Proof.
  pose proof (length_JSON_stringify posts) as Hlen.
  unfold listing_module, listing_default_export.
  remember (JSON_stringify posts) as json eqn:Ejson.
  unfold LF. cbn -[parse_value String.length].
  subst json. rewrite parse_value_JSON_stringify.
  - reflexivity.
  - cbn [String.length]. rewrite !length_append. cbn [String.length]. lia.
Qed.

(** C6 (amended). The listing written for a list of posts reads back as an
    array with one object per post, in the same order. In each object the
    [filePath], [urlPath], [title] and [description] fields are those of
    the post (an undefined title or description is absent from the
    object, and reads as undefined), and the [date] field is the text that
    [toISOString] gives for the date of the post, or [null] when the date
    is invalid. *)
Theorem listing_round_trip (posts : list PostRecord) :
  listing_default_export (listing_module (JSON_stringify posts))
  = Some (JArray (map post_data posts))
  /\ forall post : PostRecord,
       field "filePath" (post_data post) = JString (filePath post)
       /\ field "urlPath" (post_data post) = JString (urlPath post)
       /\ field "title" (post_data post) = field "title" (post_object post)
       /\ field "description" (post_data post)
          = field "description" (post_object post)
       /\ field "date" (post_data post) = date_data (date post).
Proof.
  split; [apply listing_default_export_JSON|].
  intros [fp up [t|] d [ds|]]; repeat split.
Qed.

(** C6 as it was claimed fails on every post with a date: the [date] field
    of the post is a [Date], and it reads back as a string. *)
Lemma listing_date_reads_back_as_text :
  ~ (forall posts reparsed,
        listing_default_export (listing_module (JSON_stringify posts))
        = Some (JArray reparsed) ->
        Forall2 (fun post data =>
                   forall key, field key data = field key (post_object post))
                posts reparsed).
Proof.
  intros H.
  specialize (H [sample_post] [post_data sample_post]
                (listing_default_export_JSON [sample_post])).
  inversion H as [|? ? ? ? Hdate _]; subst.
  specialize (Hdate "date"). discriminate Hdate.
Qed.

Example listing_sample :
  listing_module (JSON_stringify [sample_post])
  = "// automatically generated by build_post_index.js" ++ LF
    ++ "export default [" ++ LF
    ++ "  {" ++ LF
    ++ "    " ++ DQ ++ "filePath" ++ DQ ++ ": " ++ DQ
    ++ "pages/posts/semigroups-and-monoids.mdx" ++ DQ ++ "," ++ LF
    ++ "    " ++ DQ ++ "urlPath" ++ DQ ++ ": " ++ DQ
    ++ "/posts/semigroups-and-monoids" ++ DQ ++ "," ++ LF
    ++ "    " ++ DQ ++ "title" ++ DQ ++ ": " ++ DQ
    ++ "Semigroups and Monoids" ++ DQ ++ "," ++ LF
    ++ "    " ++ DQ ++ "date" ++ DQ ++ ": " ++ DQ
    ++ "2020-02-16T08:27:21.579Z" ++ DQ ++ "," ++ LF
    ++ "    " ++ DQ ++ "description" ++ DQ ++ ": " ++ DQ
    ++ "Semigroups and monoids are the two algebraic structures that are the most useful to the working engineer."
    ++ DQ ++ LF
    ++ "  }" ++ LF
    ++ "];" ++ LF.
Proof. vm_compute. reflexivity. Qed.

(** ** The scenarios of the specification *)

Example toISOString_sample :
  toISOString 1581841641579 = "2020-02-16T08:27:21.579Z".
Proof. reflexivity. Qed.

Example toISOString_before_epoch :
  toISOString (-1) = "1969-12-31T23:59:59.999Z".
Proof. reflexivity. Qed.

Example toISOString_last_day :
  toISOString 8640000000000000 = "+275760-09-13T00:00:00.000Z".
Proof. reflexivity. Qed.

Example Date_parse_ISO_sample :
  Date_parse_ISO "2020-02-16T08:27:21.579Z" = Some 1581841641579.
Proof. reflexivity. Qed.

Example Date_parse_ISO_dates :
  map (fun post => date_data (date post)) [january; june; far_future]
  = [ JString "2020-01-01T00:00:00.000Z";
      JString "2020-06-01T00:00:00.000Z";
      JString "2099-01-01T00:00:00.000Z" ].
Proof. reflexivity. Qed.

(** Two posts in the past and one in the future: the two are published,
    the newer first. *)
Example assemble_scenario :
  assemble [january; june; far_future] (ValidDate 1600000000000)
  = [june; january].
Proof. reflexivity. Qed.

(** A post dated exactly [now] is published; posts of the same date keep
    their order. *)
Example assemble_boundary_and_ties :
  assemble [ post_dated "x" 5; post_dated "y" 7; post_dated "z" 5;
             post_dated "w" 8 ] (ValidDate 7)
  = [ post_dated "y" 7; post_dated "x" 5; post_dated "z" 5 ].
Proof. reflexivity. Qed.

Example readPostMetadata_sample :
  readPostMetadata (sample_require (Some sample_meta) sample_ast)
                   Date_parse_ISO 0 sample_path
  = Ok sample_post.
Proof. reflexivity. Qed.

(** No [meta] object and no heading: the extraction throws. *)
Example readPostMetadata_no_title :
  readPostMetadata
    (sample_require None (Node "root" None None
                               [Node "paragraph" None None [text_node "p"]]))
    Date_parse_ISO 0 sample_path
  = Throw TypeError.
Proof. reflexivity. Qed.

(* ================================================================== *)
(** * Further properties of the script *)
(* ================================================================== *)

(** ** Scanned paths *)

Lemma scanDir_collects (dirPath extension : string)
      (entries : list (string * fsnode)) :
  unique_names (Directory entries) ->
  exists out, scanDir dirPath extension entries = Some out /\
              collects extension dirPath (Directory entries) out.
Proof.
  intros Hu.
  destruct (scan_collects (height (Directory entries)) extension dirPath
                          entries [] Hu (Nat.le_refl _)) as (out & Hs & Hc).
  exists out. split; [exact Hs | exact Hc].
Qed.

(** A file of a tree lies at the path of the tree, or below it. *)
Lemma file_at_below (p : string) (st : fsnode) (q : string) :
  file_at p st q ->
  exists r, q = p ++ r /\ (r = "" \/ exists r', r = String "/" r').
Proof.
  induction 1 as [p | p entries name st q Hin _ IH].
  - exists "". split; [now rewrite append_nil_r | now left].
  - destruct IH as (r & -> & _). exists (String "/" (name ++ r)). split.
    + unfold path_join. now rewrite !append_assoc.
    + right. now exists (name ++ r).
Qed.

Lemma append_inv_head (p a b : string) : p ++ a = p ++ b -> a = b.
Proof.
  induction p as [|c p IH]; cbn; [trivial|]. intros [= H]. now apply IH.
Qed.

(** Two names without a slash, each followed by nothing or by a slash and
    more, give the same text only if they are the same name. *)
Lemma name_then_slash (n1 n2 r1 r2 : string) :
  contains "/" n1 = false -> contains "/" n2 = false ->
  (r1 = "" \/ exists r, r1 = String "/" r) ->
  (r2 = "" \/ exists r, r2 = String "/" r) ->
  n1 ++ r1 = n2 ++ r2 -> n1 = n2 /\ r1 = r2.
Proof.
  revert n2. induction n1 as [|c n1 IH]; intros [|c' n2] H1 H2 Hr1 Hr2 E;
    cbn in *.
  - now split.
  - apply orb_false_iff in H2. destruct H2 as [Hc _].
    destruct Hr1 as [-> | [r ->]]; [discriminate|].
    injection E as <- _. discriminate.
  - apply orb_false_iff in H1. destruct H1 as [Hc _].
    destruct Hr2 as [-> | [r ->]]; [discriminate|].
    injection E as -> _. discriminate.
  - apply orb_false_iff in H1, H2. destruct H1 as [_ H1], H2 as [_ H2].
    injection E as -> E. destruct (IH n2 H1 H2 Hr1 Hr2 E) as [-> ->].
    now split.
Qed.

Lemma names_without_child (c : ascii) (entries : list (string * fsnode))
      (name : string) (st : fsnode) :
  names_without c (Directory entries) -> In (name, st) entries ->
  contains c name = false /\ names_without c st.
Proof.
  cbn [names_without]. intros H Hin.
  induction entries as [|e entries IH]; [destruct Hin|].
  cbn [fold_right] in H. destruct H as (Hn & Hs & H).
  destruct Hin as [-> | Hin]; [now split | now apply IH].
Qed.

(** What a visit collects are files of the tree. *)
Lemma visit_In (n : nat) (ext p : string) (st : fsnode) (out : list string)
      (q : string) :
  (height st < n)%nat -> visit ext p st out -> In q out -> file_at p st q.
Proof.
  revert p st out. induction n as [|n IH]; intros p st out Hh V Hq; [lia|].
  inversion V as [| |? entries sorted outs P S F]; subst.
  - destruct (endsWith p ext); [|destruct Hq].
    destruct Hq as [<- | []]. constructor.
  - destruct Hq.
  - apply in_concat in Hq. destruct Hq as (o & Ho & Hq).
    destruct (Forall2_In_r _ _ _ _ F Ho) as ([name st] & He & Hv).
    cbn [fst snd] in Hv.
    assert (In (name, st) entries) as Hin
        by (eapply Permutation_in; eassumption).
    econstructor; [exact Hin|].
    eapply IH; [|exact Hv|exact Hq].
    pose proof (height_child _ _ _ Hin). lia.
Qed.

(** A visit collects no path twice. *)
Lemma visit_NoDup (n : nat) (ext p : string) (st : fsnode)
      (out : list string) :
  (height st < n)%nat -> unique_names st -> names_without "/" st ->
  visit ext p st out -> NoDup out.
Proof.
  revert p st out. induction n as [|n IH]; intros p st out Hh Hu Hc V; [lia|].
  inversion V as [| |? entries sorted outs P S F]; subst.
  - destruct (endsWith p ext); repeat constructor. intros [].
  - constructor.
  - assert (Hin : forall e, In e sorted -> In e entries)
      by (intros e He; eapply Permutation_in; eassumption).
    assert (Hnd : NoDup (map fst sorted)).
    { destruct Hu as [Hnd _]. eapply Permutation_NoDup; [|exact Hnd].
      apply Permutation_map, Permutation_sym, P. }
    clear P S V. induction F as [|[name st] o sorted outs Hv F IHF];
      [constructor|].
    cbn [fst snd] in Hv. cbn [List.concat].
    assert (In (name, st) entries) as He by (apply Hin; now left).
    destruct (names_without_child _ _ _ _ Hc He) as [Hname Hst].
    inversion Hnd as [|? ? Hfresh Hnd']; subst.
    apply NoDup_app.
    + eapply IH; [| | |exact Hv]; [|eapply unique_names_child; eassumption|
                                   exact Hst].
      pose proof (height_child _ _ _ He). lia.
    + apply IHF; [|assumption]. intros e' He'. apply Hin. now right.
    + intros q Hq Hq'. apply in_concat in Hq'.
      destruct Hq' as (o' & Ho' & Hq').
      destruct (Forall2_In_r _ _ _ _ F Ho') as ([name' st'] & He' & Hv').
      cbn [fst snd] in Hv'.
      assert (In (name', st') entries) as Hin' by (apply Hin; now right).
      destruct (names_without_child _ _ _ _ Hc Hin') as [Hname' _].
      apply (visit_In (S (height st)) _ _ _ _ _ (Nat.lt_succ_diag_r _) Hv)
        in Hq.
      apply (visit_In (S (height st')) _ _ _ _ _ (Nat.lt_succ_diag_r _) Hv')
        in Hq'.
      apply file_at_below in Hq, Hq'.
      destruct Hq as (r & -> & Hr), Hq' as (r' & E & Hr').
      unfold path_join in E. rewrite !append_assoc in E.
      apply append_inv_head in E. cbn [append] in E. injection E as E.
      destruct (name_then_slash _ _ _ _ Hname Hname' Hr Hr' E) as [-> _].
      apply Hfresh. apply (in_map fst) in He'. exact He'.
Qed.


Lemma StronglySorted_names (l l' : list (string * fsnode)) :
  map fst l = map fst l' ->
  StronglySorted name_le l -> StronglySorted name_le l'.
Proof.
  revert l'. induction l as [|e l IH]; intros [|e' l'] E S;
    try discriminate; [constructor|].
  cbn in E. injection E as E1 E. inversion S as [|? ? S' Hall]; subst.
  constructor; [now apply IH|].
  apply Forall_forall. intros x Hx.
  apply (in_map fst) in Hx. rewrite <- E in Hx. apply in_map_iff in Hx.
  destruct Hx as (y & Ey & Hy). rewrite Forall_forall in Hall.
  specialize (Hall y Hy). unfold name_le in *. now rewrite <- E1, <- Ey.
Qed.

(** The visit does not depend on the order in which the directories list
    their entries. *)
Lemma visit_same_tree (n : nat) (ext p : string) (st st' : fsnode)
      (out : list string) :
  (height st < n)%nat -> same_tree st st' ->
  visit ext p st out -> visit ext p st' out.
Proof.
  revert p st st' out.
  induction n as [|n IH]; intros p st st' out Hh T V; [lia|].
  inversion T as [| |entries entries' listed Pl Fl]; subst;
    inversion V as [| |? ? sorted outs P S F]; subst; try constructor.
  destruct (Permutation_Forall2 (Permutation_sym P) Fl)
    as (sorted' & Ps & Fs).
  apply visit_dir with (sorted := sorted').
  - eapply perm_trans; [apply Permutation_sym, Ps | exact Pl].
  - apply (StronglySorted_names sorted); [|exact S].
    clear - Fs. induction Fs as [|e e' l l' [E _] _ IHF]; cbn;
      [reflexivity | now rewrite E, IHF].
  - assert (Hin : forall e, In e sorted -> In e entries)
      by (intros e He; eapply Permutation_in; eassumption).
    clear - IH Hh Hin Fs F. revert outs F.
    induction Fs as [|e e' l l' [E T] _ IHF]; intros outs F;
      inversion F as [|? o ? outs' Hv F']; subst; constructor.
    + rewrite <- E. apply (IH _ (snd e)); [|exact T|exact Hv].
      destruct e as [name st]. 
      pose proof (height_child entries name st (Hin _ (or_introl eq_refl))).
      cbn [snd]. lia.
    + apply IHF; [|exact F']. intros x Hx. apply Hin. now right.
Qed.

(** X2. [scanDir] returns the same list for a tree and for the same tree
    with its directories listed in another order: the order in which the
    system lists the entries does not matter. *)
Theorem scanDir_listing_order_irrelevant
        (dirPath extension : string) (entries entries' : list (string * fsnode))
        (distinct : unique_names (Directory entries))
        (distinct' : unique_names (Directory entries'))
        (same : same_tree (Directory entries) (Directory entries')) :
  scanDir dirPath extension entries = scanDir dirPath extension entries'
  /\ exists mdxFiles, scanDir dirPath extension entries = Some mdxFiles.
Proof.
  destruct (scanDir_collects dirPath extension entries distinct)
    as (out & Hscan & Hvisit & _).
  destruct (scanDir_collects dirPath extension entries' distinct')
    as (out' & Hscan' & Hvisit' & _).
  split; [|now exists out]. rewrite Hscan, Hscan'. f_equal.
  apply (visit_functional (S (height (Directory entries'))) extension dirPath
                          (Directory entries'));
    [lia | exact distinct' | | exact Hvisit'].
  apply (visit_same_tree (S (height (Directory entries))) extension dirPath
                         (Directory entries));
    [lia | exact same | exact Hvisit].
Qed.

(** ** URL paths of scanned posts *)

Lemma contains_append (c : ascii) (a b : string) :
  contains c (a ++ b) = contains c a || contains c b.
Proof.
  induction a as [|x a IH]; cbn; [reflexivity|].
  now rewrite IH, orb_assoc.
Qed.

(** X3. For a path made of [pages], a rest without backslash and the
    extension [.mdx] or [.md], the URL path is the rest. For a path with a
    backslash right after [pages], the URL path is the rest with that
    backslash turned into a slash, the later backslashes being kept. *)
Theorem urlPath_of_page_path (r : string) :
  (contains "\" r = false ->
   urlPath_of ("pages" ++ r ++ ".mdx") = r /\
   urlPath_of ("pages" ++ r ++ ".md") = r)
  /\ urlPath_of ("pages" ++ String "\" r ++ ".mdx") = String "/" r
  /\ urlPath_of ("pages" ++ String "\" r ++ ".md") = String "/" r.
Proof.
  unfold urlPath_of. split; [|split].
  - intros Hr. split.
    + rewrite replace_backslash_none
        by (rewrite !contains_append, Hr; reflexivity).
      rewrite replace_pages_prefix. apply replace_mdx_mdx.
    + rewrite replace_backslash_none
        by (rewrite !contains_append, Hr; reflexivity).
      rewrite replace_pages_prefix. apply replace_mdx_md.
  - change ("pages" ++ String "\" r ++ ".mdx")
      with ("pages" ++ String "\" (r ++ ".mdx")).
    rewrite replace_backslash_first by reflexivity.
    rewrite replace_pages_prefix.
    apply (replace_mdx_mdx (String "/" r)).
  - change ("pages" ++ String "\" r ++ ".md")
      with ("pages" ++ String "\" (r ++ ".md")).
    rewrite replace_backslash_first by reflexivity.
    rewrite replace_pages_prefix.
    apply (replace_mdx_md (String "/" r)).
Qed.

Lemma append_eq_suffix (a b pre suf : string) :
  a ++ b = pre ++ suf -> (String.length suf <= String.length b)%nat ->
  exists t, b = t ++ suf /\ pre = a ++ t.
Proof.
  revert pre. induction a as [|c a IH]; intros pre E Hl; cbn in E.
  - now exists pre.
  - destruct pre as [|c' pre]; cbn in E.
    + apply (f_equal String.length) in E. cbn in E.
      rewrite length_append in E. lia.
    + injection E as -> E. destruct (IH pre E Hl) as (t & -> & ->).
      now exists t.
Qed.

Lemma file_at_without_backslash (p : string) (st : fsnode) (q : string) :
  file_at p st q -> names_without "\" st -> contains "\" p = false ->
  contains "\" q = false.
Proof.
  induction 1 as [p | p entries name st q Hin _ IH]; intros Hn Hp;
    [exact Hp|].
  destruct (names_without_child _ _ _ _ Hn Hin) as [Hname Hst].
  apply IH; [exact Hst|]. unfold path_join.
  now rewrite !contains_append, Hp, Hname.
Qed.

Lemma NoDup_map_in {A B : Type} (f : A -> B) (l : list A) :
  (forall x y, In x l -> In y l -> f x = f y -> x = y) ->
  NoDup l -> NoDup (map f l).
Proof.
  intros Hinj Hnd. induction Hnd as [|x l Hx _ IH]; cbn; constructor.
  - intros Hfx. apply in_map_iff in Hfx. destruct Hfx as (y & E & Hy).
    assert (y = x) as -> by (apply Hinj; [now right | now left | exact E]).
    now apply Hx.
  - apply IH. intros a b Ha Hb. apply Hinj; now right.
Qed.

Lemma urlPath_page (r : string) :
  contains "\" r = false -> urlPath_of ("pages" ++ r ++ ".mdx") = r.
Proof.
  intros Hr. unfold urlPath_of.
  rewrite replace_backslash_none
    by (rewrite !contains_append, Hr; reflexivity).
  rewrite replace_pages_prefix. apply replace_mdx_mdx.
Qed.

(** The posts of a scan of [pages/posts]: each path is [pages], the URL
    path and [.mdx]. *)
Lemma scanned_post_path (entries : list (string * fsnode))
      (mdxFiles : list string) (p : string) :
  unique_names (Directory entries) ->
  names_without "\" (Directory entries) ->
  scanDir "pages/posts" ".mdx" entries = Some mdxFiles ->
  In p mdxFiles ->
  file_at "pages/posts" (Directory entries) p /\
  exists rest, p = "pages/posts/" ++ rest ++ ".mdx" /\
               urlPath_of p = "/posts/" ++ rest.
Proof.
  intros Hu Hb Hscan Hp.
  destruct (scanDir_collects "pages/posts" ".mdx" entries Hu)
    as (out & Hscan' & _ & Hmem).
  rewrite Hscan in Hscan'. injection Hscan' as ->.
  apply Hmem in Hp. destruct Hp as [Hf He]. split; [exact Hf|].
  pose proof (file_at_without_backslash _ _ _ Hf Hb eq_refl) as Hclean.
  inversion Hf as [|? ? name st ? Hin Hf']; subst.
  apply file_at_below in Hf'. destruct Hf' as (r & -> & _).
  unfold path_join in *. rewrite !append_assoc in *.
  remember (name ++ r) as s eqn:Es. clear Es.
  change ("pages/posts" ++ "/" ++ s) with ("pages/posts/" ++ s) in *.
  assert (exists rest, s = rest ++ ".mdx") as [rest ->].
  { destruct s as [|a [|b [|c [|d s]]]]; try discriminate He.
    apply endsWith_spec in He. destruct He as [pre He].
    destruct (append_eq_suffix "pages/posts/" _ pre ".mdx" He) as (t & E & _);
      [cbn; lia | now exists t]. }
  exists rest. split; [reflexivity|].
  rewrite !contains_append in Hclean.
  apply orb_false_iff in Hclean. destruct Hclean as [_ Hclean].
  apply orb_false_iff in Hclean. destruct Hclean as [Hrest _].
  change ("pages/posts/" ++ rest ++ ".mdx")
    with ("pages" ++ ("/posts/" ++ rest) ++ ".mdx").
  apply urlPath_page. now rewrite contains_append, Hrest.
Qed.

(** X4. After a scan of [pages/posts] whose entry names hold neither slash
    nor backslash, every path is [pages/posts/], a rest and [.mdx], its
    URL path is [/posts/] and that rest, so that the path is [pages], the
    URL path and [.mdx]; no two scanned posts share a URL path. *)
Theorem scanned_posts_have_distinct_urls
        (entries : list (string * fsnode)) (mdxFiles : list string)
        (distinct : unique_names (Directory entries))
        (plain : names_without "/" (Directory entries))
        (posix : names_without "\" (Directory entries))
        (scanned : scanDir "pages/posts" ".mdx" entries = Some mdxFiles) :
  (forall p, In p mdxFiles ->
     exists rest, p = "pages/posts/" ++ rest ++ ".mdx" /\
                  urlPath_of p = "/posts/" ++ rest)
  /\ (forall p, In p mdxFiles -> "pages" ++ urlPath_of p ++ ".mdx" = p)
  /\ NoDup (map urlPath_of mdxFiles).
Proof.
  assert (Hpath : forall p, In p mdxFiles ->
     exists rest, p = "pages/posts/" ++ rest ++ ".mdx" /\
                  urlPath_of p = "/posts/" ++ rest).
  { intros p Hp.
    now destruct (scanned_post_path entries mdxFiles p distinct posix
                                    scanned Hp). }
  assert (Hback : forall p, In p mdxFiles ->
                            "pages" ++ urlPath_of p ++ ".mdx" = p).
  { intros p Hp. destruct (Hpath p Hp) as (rest & -> & ->). reflexivity. }
  split; [exact Hpath|]. split; [exact Hback|].
  apply NoDup_map_in.
  - intros x y Hx Hy E. rewrite <- (Hback x Hx), <- (Hback y Hy).
    now rewrite E.
  - destruct (scanDir_collects "pages/posts" ".mdx" entries distinct)
      as (out & Hscan & Hvisit & _).
    rewrite scanned in Hscan. injection Hscan as ->.
    apply (visit_NoDup (S (height (Directory entries))) ".mdx" "pages/posts"
                       (Directory entries));
      [lia | exact distinct | exact plain | exact Hvisit].
Qed.

(** ** Runs of the pipeline *)



Section RunFacts.

Variable requireMDXFileSync : string -> result (option Meta * node).
Variable Date_parse : string -> option Z.
Variable Rss_draw : list PostRecord -> string.
Variable entries : list (string * fsnode).
Variable now : Z.
Variable clockAt : nat -> Z.
Variable postPaths : list string.
Hypothesis scanned : scanDir "pages/posts" ".mdx" entries = Some postPaths.


Lemma collect_records (posts : list PostRecord) :
  collect requireMDXFileSync Date_parse entries now clockAt = Ok posts <->
  exists records,
    Array_map (fun i postPath =>
                 readPostMetadata requireMDXFileSync Date_parse
                                  (clockAt i) postPath) postPaths
    = Ok records /\
    posts = assemble records (ValidDate now).
Proof.
  unfold collect. rewrite scanned.
  destruct (Array_map _ postPaths) as [records|e']; cbn [bind].
  - split.
    + intros [= <-]. now exists records.
    + intros (records' & [= <-] & ->). reflexivity.
  - split; [discriminate | intros (records' & H & _); discriminate].
Qed.

End RunFacts.


Lemma readPostMetadata_urlPath
      (requireMDXFileSync : string -> result (option Meta * node))
      (Date_parse : string -> option Z) (clock : Z) (postPath : string)
      (post : PostRecord) :
  readPostMetadata requireMDXFileSync Date_parse clock postPath = Ok post ->
  urlPath post = urlPath_of postPath.
Proof.
  intros H. destruct (requireMDXFileSync postPath) as [[meta ast]|e] eqn:E.
  - now apply (readPostMetadata_Ok _ _ _ _ _ _ E) in H.
  - unfold readPostMetadata in H. rewrite E in H. discriminate.
Qed.

Lemma Array_map_from_paths
      (requireMDXFileSync : string -> result (option Meta * node))
      (Date_parse : string -> option Z) (clockAt : nat -> Z)
      (postPaths : list string) (i : nat) (records : list PostRecord) :
  Array_map_from
    (fun i postPath =>
       readPostMetadata requireMDXFileSync Date_parse (clockAt i) postPath)
    i postPaths = Ok records ->
  map filePath records = postPaths /\
  map urlPath records = map urlPath_of postPaths.
Proof.
  revert i records. induction postPaths as [|p l IH]; intros i records H;
    cbn [Array_map_from] in H.
  - injection H as <-. now split.
  - destruct (readPostMetadata _ _ (clockAt i) p) as [r|e] eqn:E;
      cbn [bind] in H; [|discriminate].
    destruct (Array_map_from _ (S i) l) as [rs|e] eqn:El; cbn [bind] in H;
      [|discriminate].
    injection H as <-. destruct (IH _ _ El) as [Hf Hu]. cbn [map].
    rewrite Hf, Hu, (readPostMetadata_filePath _ _ _ _ _ E),
      (readPostMetadata_urlPath _ _ _ _ _ E).
    now split.
Qed.

Lemma NoDup_map_filter {A B : Type} (g : A -> B) (P : A -> bool)
      (l : list A) :
  NoDup (map g l) -> NoDup (map g (filter P l)).
Proof.
  induction l as [|x l IH]; cbn; [trivial|].
  intros H. inversion H as [|? ? Hx Hl]; subst.
  destruct (P x); cbn; [|now apply IH].
  constructor; [|now apply IH].
  intros Hin. apply Hx. apply in_map_iff in Hin.
  destruct Hin as (y & E & Hy). apply filter_In in Hy.
  rewrite <- E. apply in_map. tauto.
Qed.


(** X7. Every post that a run publishes is a regular file of the tree
    under [pages/posts] whose path is [pages/posts/], a rest and [.mdx],
    and its URL path is [/posts/] and that rest (entry names are distinct
    within a directory and hold no backslash). *)
Theorem published_posts_are_scanned_pages
        (requireMDXFileSync : string -> result (option Meta * node))
        (Date_parse : string -> option Z)
        (Rss_draw : list PostRecord -> string)
        (entries : list (string * fsnode)) (now : Z) (clockAt : nat -> Z)
        (files out : FileStore)
        (distinct : unique_names (Directory entries))
        (posix : names_without "\" (Directory entries))
        (ran : main requireMDXFileSync Date_parse Rss_draw entries now
                    clockAt files = Ok out) :
  exists posts,
    out exportPath = Some (listing_module (JSON_stringify posts)) /\
    out rssPath = Some (Rss_draw posts) /\
    forall post, In post posts ->
      file_at "pages/posts" (Directory entries) (filePath post) /\
      exists rest,
        filePath post = "pages/posts/" ++ rest ++ ".mdx" /\
        urlPath post = "/posts/" ++ rest.
Proof.
  apply main_Ok in ran. destruct ran as (posts & Hc & He & Hr & _).
  exists posts. split; [exact He|]. split; [exact Hr|].
  intros post Hp.
  destruct (collect_In _ _ _ _ _ _ Hc post Hp)
    as (postPaths & k & Hscan & Hk & Hread & _).
  apply nth_error_In in Hk.
  destruct (scanned_post_path entries postPaths _ distinct posix Hscan Hk)
    as (Hfile & rest & Hpath & Hurl).
  split; [exact Hfile|]. exists rest. split; [exact Hpath|].
  now rewrite (readPostMetadata_urlPath _ _ _ _ _ Hread).
Qed.

(** X8. The posts that a run publishes have pairwise distinct file paths
    and pairwise distinct URL paths (entry names are distinct within a
    directory and hold neither slash nor backslash). *)
Theorem published_posts_are_distinct
        (requireMDXFileSync : string -> result (option Meta * node))
        (Date_parse : string -> option Z)
        (Rss_draw : list PostRecord -> string)
        (entries : list (string * fsnode)) (now : Z) (clockAt : nat -> Z)
        (files out : FileStore)
        (distinct : unique_names (Directory entries))
        (plain : names_without "/" (Directory entries))
        (posix : names_without "\" (Directory entries))
        (ran : main requireMDXFileSync Date_parse Rss_draw entries now
                    clockAt files = Ok out) :
  exists posts,
    out exportPath = Some (listing_module (JSON_stringify posts)) /\
    out rssPath = Some (Rss_draw posts) /\
    NoDup (map filePath posts) /\ NoDup (map urlPath posts).
Proof.
  apply main_Ok in ran. destruct ran as (posts & Hc & He & Hr & _).
  exists posts. split; [exact He|]. split; [exact Hr|].
  destruct (scanDir_collects "pages/posts" ".mdx" entries distinct)
    as (postPaths & Hscan & Hvisit & _).
  apply (collect_records _ _ _ _ _ _ Hscan) in Hc.
  destruct Hc as (records & Hmap & ->).
  apply Array_map_from_paths in Hmap. destruct Hmap as [Hf Hu].
  assert (Hnd : NoDup postPaths).
  { apply (visit_NoDup (S (height (Directory entries))) ".mdx" "pages/posts"
                       (Directory entries));
      [lia | exact distinct | exact plain | exact Hvisit]. }
  assert (Hurls : NoDup (map urlPath_of postPaths)).
  { apply NoDup_map_in; [|exact Hnd]. intros x y Hx Hy E.
    destruct (scanned_post_path entries postPaths x distinct posix Hscan Hx)
      as (_ & rx & -> & Ex).
    destruct (scanned_post_path entries postPaths y distinct posix Hscan Hy)
      as (_ & ry & -> & Ey).
    rewrite Ex, Ey in E. injection E as E. now rewrite E. }
  unfold assemble. split.
  - eapply Permutation_NoDup;
      [apply Permutation_map, Permutation_sym, Array_sort_perm|].
    apply NoDup_map_filter. now rewrite Hf.
  - eapply Permutation_NoDup;
      [apply Permutation_map, Permutation_sym, Array_sort_perm|].
    apply NoDup_map_filter. now rewrite Hu.
Qed.

(** ** The published list as [now] moves *)

Lemma sort_insert_first {A : Type} (comparefn : A -> A -> option Z) (x : A)
      (l : list A) :
  (forall y, hd_error l = Some y -> SortCompare comparefn x y <= 0) ->
  sort_insert comparefn x l = x :: l.
Proof.
  destruct l as [|y l]; [reflexivity|]. intros H. cbn.
  specialize (H y eq_refl). apply Z.leb_le in H. now rewrite H.
Qed.

Lemma newer_or_same_compare (a b : PostRecord) :
  newer_or_same a b -> SortCompare by_date_desc a b <= 0.
Proof.
  unfold newer_or_same, SortCompare, by_date_desc, Date_sub.
  destruct (valueOf (date a)), (valueOf (date b)); try tauto. lia.
Qed.

Lemma newer_or_same_valid (a b : PostRecord) :
  newer_or_same a b -> has_valid_date a /\ has_valid_date b.
Proof.
  unfold newer_or_same, has_valid_date.
  destruct (date a) as [x|], (date b) as [y|]; cbn; try tauto.
  intros _. split; eexists; reflexivity.
Qed.

(** A list sorted from the newest date on is left as it is by the sort. *)
Lemma Array_sort_sorted_id (l : list PostRecord) :
  StronglySorted newer_or_same l -> Array_sort by_date_desc l = l.
Proof.
  induction 1 as [|x l _ IH Hx]; [reflexivity|].
  cbn [Array_sort]. rewrite IH. apply sort_insert_first.
  intros y Hy. apply newer_or_same_compare.
  rewrite Forall_forall in Hx. apply Hx.
  destruct l; [discriminate|]. injection Hy as <-. now left.
Qed.

Lemma sort_insert_filter_commute (P : PostRecord -> bool) (x : PostRecord)
      (l : list PostRecord) :
  has_valid_date x -> Forall has_valid_date l ->
  StronglySorted newer_or_same l ->
  filter P (sort_insert by_date_desc x l)
  = if P x then sort_insert by_date_desc x (filter P l) else filter P l.
Proof.
  intros Hx Hl Hs. induction Hs as [|y l Hs IH Hy]; cbn [sort_insert filter].
  - now destruct (P x).
  - inversion Hl as [|? ? Hvy Hl']; subst.
    destruct (SortCompare by_date_desc x y <=? 0) eqn:E.
    + cbn [filter]. destruct (P x); [|reflexivity].
      symmetry. apply sort_insert_first. intros z Hz.
      apply Z.leb_le in E.
      assert (newer_or_same x y) as Hxy by (now apply by_date_desc_le).
      destruct (P y).
      * injection Hz as <-. exact E.
      * apply newer_or_same_compare.
        apply (newer_or_same_trans x y z Hxy).
        rewrite Forall_forall in Hy. apply Hy.
        assert (In z (filter P l)) as Hin
            by (destruct (filter P l); [discriminate|];
                injection Hz as <-; now left).
        apply filter_In in Hin. tauto.
    + cbn [filter]. rewrite (IH Hl').
      destruct (P x), (P y); cbn [sort_insert]; try rewrite E; reflexivity.
Qed.

Lemma filter_sort_commute (P : PostRecord -> bool) (l : list PostRecord) :
  Forall has_valid_date l ->
  filter P (Array_sort by_date_desc l) = Array_sort by_date_desc (filter P l).
Proof.
  induction l as [|x l IH]; intros Hl; [reflexivity|].
  inversion Hl as [|? ? Hx Hl']; subst. cbn [Array_sort filter].
  rewrite sort_insert_filter_commute.
  - rewrite (IH Hl'). now destruct (P x).
  - exact Hx.
  - eapply Permutation_Forall;
      [apply Permutation_sym, Array_sort_perm | exact Hl'].
  - apply Array_sort_sorted with (D := has_valid_date);
      [exact by_date_desc_le | exact by_date_desc_gt
       | exact newer_or_same_trans | exact Hl'].
Qed.

Lemma filter_filter_le (records : list PostRecord) (now1 now2 : Z) :
  now1 <= now2 ->
  filter (fun post => Date_le (date post) (ValidDate now1))
    (filter (fun post => Date_le (date post) (ValidDate now2)) records)
  = filter (fun post => Date_le (date post) (ValidDate now1)) records.
Proof.
  intros Hle. induction records as [|p l IH]; [reflexivity|].
  cbn [filter].
  destruct (Date_le (date p) (ValidDate now1)) eqn:E1.
  - assert (Date_le (date p) (ValidDate now2) = true) as ->.
    { apply Date_le_valid in E1. destruct E1 as (t & Et & Ht).
      apply Date_le_valid. exists t. split; [exact Et | lia]. }
    cbn [filter]. now rewrite E1, IH.
  - destruct (Date_le (date p) (ValidDate now2)); [|exact IH].
    cbn [filter]. now rewrite E1.
Qed.

(** X9. What is published at an earlier [now] is what is published at a
    later [now] without the posts dated after the earlier one, in the same
    order: as time passes, posts are only added to the list. *)
Theorem assemble_earlier_now (records : list PostRecord) (now1 now2 : Z)
        (earlier : now1 <= now2) :
  assemble records (ValidDate now1)
  = filter (fun post => Date_le (date post) (ValidDate now1))
           (assemble records (ValidDate now2)).
Proof.
  unfold assemble. rewrite filter_sort_commute by apply published_valid.
  now rewrite filter_filter_le.
Qed.

(** X10. Assembling a published list again, at the same [now] or at a
    later one, gives that list back: a list read from the listing needs no
    new filtering or sorting. *)
Theorem assemble_idempotent (records : list PostRecord) (now1 now2 : Z)
        (later : now1 <= now2) :
  assemble (assemble records (ValidDate now1)) (ValidDate now2)
  = assemble records (ValidDate now1).
Proof.
  assert (Hs : StronglySorted newer_or_same (assemble records (ValidDate now1))).
  { unfold assemble. apply Array_sort_sorted with (D := has_valid_date);
      [exact by_date_desc_le | exact by_date_desc_gt
       | exact newer_or_same_trans | apply published_valid]. }
  unfold assemble at 1. rewrite forallb_filter_id.
  - now apply Array_sort_sorted_id.
  - apply forallb_forall. intros post Hp. unfold assemble in Hp.
    apply Array_sort_In in Hp. apply filter_In in Hp. destruct Hp as [_ Hp].
    apply Date_le_valid in Hp. destruct Hp as (t & Et & Ht).
    apply Date_le_valid. exists t. split; [exact Et | lia].
Qed.

(** ** Edge cases of a run *)





(** ** The suffix test *)

Lemma endsWith_path_join (dir name ext : string) :
  contains "/" ext = false ->
  endsWith (path_join dir name) ext = endsWith name ext.
Proof.
  intros Hext. unfold path_join.
  destruct (endsWith name ext) eqn:En.
  - apply endsWith_spec in En. destruct En as [t ->].
    apply endsWith_spec. exists (dir ++ "/" ++ t).
    now rewrite !append_assoc.
  - destruct (endsWith (dir ++ "/" ++ name) ext) eqn:Ep; [|reflexivity].
    apply endsWith_spec in Ep. destruct Ep as [pre Ep].
    destruct (Nat.le_gt_cases (String.length ext) (String.length name))
      as [Hle | Hgt].
    + rewrite <- append_assoc in Ep.
      destruct (append_eq_suffix _ _ _ _ Ep Hle) as (t & Et & _).
      assert (endsWith name ext = true) as H
          by (apply endsWith_spec; now exists t).
      congruence.
    + symmetry in Ep.
      assert (String.length ("/" ++ name) <= String.length ext)%nat as Hl
          by (cbn; lia).
      destruct (append_eq_suffix pre ext dir ("/" ++ name) Ep Hl)
        as (t & Et & _).
      rewrite Et, contains_append in Hext. cbn in Hext.
      apply orb_false_iff in Hext. destruct Hext as [_ Hext]. discriminate.
Qed.

(** X13. With an extension that holds no slash, the suffix test that
    [scan] makes on the whole path is a test on the file name: a regular
    file of the scanned directory is in the result exactly when its name
    ends with the extension. *)
Theorem scanDir_tests_the_file_name
        (dirPath extension : string) (entries : list (string * fsnode))
        (mdxFiles : list string) (name : string)
        (distinct : unique_names (Directory entries))
        (slashless : contains "/" extension = false)
        (scanned : scanDir dirPath extension entries = Some mdxFiles)
        (listed : In (name, RegularFile) entries) :
  In (path_join dirPath name) mdxFiles <-> endsWith name extension = true.
Proof.
  destruct (scanDir_collects dirPath extension entries distinct)
    as (out & Hscan & _ & Hmem).
  rewrite scanned in Hscan. injection Hscan as ->.
  rewrite Hmem, endsWith_path_join by exact slashless. split.
  - tauto.
  - intros H. split; [|exact H]. econstructor; [exact listed | constructor].
Qed.

(** ** The listing of a run *)

(** X14. The listing that a successful run writes can always be read
    back: it is the array of the published posts, one object per post in
    order, and the date of every object is a string, the text of a time at
    or before [now], never [null]. *)
Theorem main_listing_reads_back
        (requireMDXFileSync : string -> result (option Meta * node))
        (Date_parse : string -> option Z)
        (Rss_draw : list PostRecord -> string)
        (entries : list (string * fsnode)) (now : Z) (clockAt : nat -> Z)
        (files out : FileStore)
        (ran : main requireMDXFileSync Date_parse Rss_draw entries now
                    clockAt files = Ok out) :
  exists text posts,
    out exportPath = Some text /\
    listing_default_export text = Some (JArray (map post_data posts)) /\
    out rssPath = Some (Rss_draw posts) /\
    forall post, In post posts ->
      exists t, t <= now /\
                field "date" (post_data post) = JString (toISOString t).
Proof.
  apply main_Ok in ran. destruct ran as (posts & Hc & He & Hr & _).
  exists (listing_module (JSON_stringify posts)), posts.
  split; [exact He|]. split; [apply listing_default_export_JSON|].
  split; [exact Hr|]. intros post Hp.
  destruct (collect_In _ _ _ _ _ _ Hc post Hp) as (_ & _ & _ & _ & _ & Hle).
  apply Date_le_valid in Hle. destruct Hle as (t & Et & Ht).
  exists t. split; [exact Ht|].
  destruct post as [fp up ti d ds]. cbn in Et. subst d.
  now destruct ti.
Qed.

(** ** Posts with a complete [meta] object *)

(** X15. When the [meta] object has a non-empty title and a non-empty
    description, the extraction never looks at the document tree nor at
    the clock: the record is the path, its URL path, the two texts and the
    date built from the [meta] date field, whatever the tree is. *)
Theorem complete_meta_decides_the_record
        (requireMDXFileSync : string -> result (option Meta * node))
        (Date_parse : string -> option Z) (clock : Z) (postPath : string)
        (m : Meta) (ast : node) (t d : string)
        (compiled : requireMDXFileSync postPath = Ok (Some m, ast))
        (titled : meta_title m = Some t) (title_text : t <> "")
        (described : meta_description m = Some d) (description_text : d <> "") :
  readPostMetadata requireMDXFileSync Date_parse clock postPath
  = Ok {| filePath := postPath;
          urlPath := urlPath_of postPath;
          title := Some t;
          date := new_Date_from Date_parse (meta_date m);
          description := Some d |}.
Proof.
  apply (readPostMetadata_Ok _ _ _ _ _ _ compiled).
  cbn [filePath urlPath title date description].
  assert (truthy_field (Some m) meta_title = Some t) as ->
      by (apply truthy_field_Some; now exists m).
  assert (truthy_field (Some m) meta_description = Some d) as ->
      by (apply truthy_field_Some; now exists m).
  repeat split.
Qed.

(** ** Instances *)


Lemma scanDir_listing_order_irrelevant_witness :
  scanDir "pages/posts" ".mdx" sample_tree
  = scanDir "pages/posts" ".mdx" sample_tree_relisted
  /\ exists mdxFiles, scanDir "pages/posts" ".mdx" sample_tree = Some mdxFiles.
Proof.
  apply scanDir_listing_order_irrelevant.
  - cbn. repeat split; repeat constructor; cbn; intuition discriminate.
  - cbn. repeat split; repeat constructor; cbn; intuition discriminate.
  - apply same_dir
      with (listed := [ ("semigroups-and-monoids.mdx", RegularFile);
                        ("index.gen.js", RegularFile);
                        ("drafts", Directory [ ("old", Directory []);
                                               ("notes.MDX", RegularFile);
                                               ("wip.mdx", RegularFile) ]);
                        ("hello.mdx", RegularFile);
                        ("about.md", RegularFile) ]).
    + apply (Permutation_rev
               [ ("semigroups-and-monoids.mdx", RegularFile);
                 ("index.gen.js", RegularFile);
                 ("drafts", Directory [ ("old", Directory []);
                                        ("notes.MDX", RegularFile);
                                        ("wip.mdx", RegularFile) ]);
                 ("hello.mdx", RegularFile);
                 ("about.md", RegularFile) ]).
    + repeat constructor.
      apply same_dir with (listed := [ ("wip.mdx", RegularFile);
                                       ("notes.MDX", RegularFile);
                                       ("old", Directory []) ]).
      * apply (Permutation_rev [ ("wip.mdx", RegularFile);
                                 ("notes.MDX", RegularFile);
                                 ("old", Directory []) ]).
      * repeat constructor.
        apply same_dir with (listed := []); constructor.
Defined.

Lemma urlPath_of_page_path_witness :
  urlPath_of ("pages" ++ "/posts/a/b" ++ ".mdx") = "/posts/a/b" /\
  urlPath_of ("pages" ++ "/posts/a/b" ++ ".md") = "/posts/a/b".
Proof.
  apply (proj1 (urlPath_of_page_path "/posts/a/b")). reflexivity.
Defined.

Lemma scanned_posts_have_distinct_urls_witness :
  NoDup (map urlPath_of
             [ "pages/posts/drafts/wip.mdx"; "pages/posts/hello.mdx";
               "pages/posts/semigroups-and-monoids.mdx" ]).
Proof.
  apply (scanned_posts_have_distinct_urls sample_tree).
  - cbn. repeat split; repeat constructor; cbn; intuition discriminate.
  - cbn. repeat split.
  - cbn. repeat split.
  - reflexivity.
Defined.



Lemma published_posts_are_scanned_pages_witness :
  exists out,
    main (sample_require (Some sample_meta) sample_ast) Date_parse_ISO
         sample_draw sample_tree 1600000000000 (fun _ => 1600000000001)
         no_files = Ok out /\
    exists posts,
      out exportPath = Some (listing_module (JSON_stringify posts)) /\
      out rssPath = Some (sample_draw posts) /\
      forall post, In post posts ->
        file_at "pages/posts" (Directory sample_tree) (filePath post) /\
        exists rest,
          filePath post = "pages/posts/" ++ rest ++ ".mdx" /\
          urlPath post = "/posts/" ++ rest.
Proof.
  eexists. split; [reflexivity|].
  apply (published_posts_are_scanned_pages
           (sample_require (Some sample_meta) sample_ast) Date_parse_ISO
           sample_draw sample_tree 1600000000000 (fun _ => 1600000000001)
           no_files).
  - cbn. repeat split; repeat constructor; cbn; intuition discriminate.
  - cbn. repeat split.
  - reflexivity.
Defined.

Lemma published_posts_are_distinct_witness :
  exists out,
    main (sample_require (Some sample_meta) sample_ast) Date_parse_ISO
         sample_draw sample_tree 1600000000000 (fun _ => 1600000000001)
         no_files = Ok out /\
    exists posts,
      out exportPath = Some (listing_module (JSON_stringify posts)) /\
      out rssPath = Some (sample_draw posts) /\
      NoDup (map filePath posts) /\ NoDup (map urlPath posts).
Proof.
  eexists. split; [reflexivity|].
  apply (published_posts_are_distinct
           (sample_require (Some sample_meta) sample_ast) Date_parse_ISO
           sample_draw sample_tree 1600000000000 (fun _ => 1600000000001)
           no_files).
  - cbn. repeat split; repeat constructor; cbn; intuition discriminate.
  - cbn. repeat split.
  - cbn. repeat split.
  - reflexivity.
Defined.

Lemma assemble_earlier_now_witness :
  assemble [january; june; far_future] (ValidDate 1580000000000)
  = filter (fun post => Date_le (date post) (ValidDate 1580000000000))
           (assemble [january; june; far_future] (ValidDate 1600000000000)).
Proof.
  apply assemble_earlier_now. lia.
Defined.

Lemma assemble_idempotent_witness :
  assemble (assemble [january; june; far_future] (ValidDate 1600000000000))
           (ValidDate 1700000000000)
  = assemble [january; june; far_future] (ValidDate 1600000000000).
Proof.
  apply assemble_idempotent. lia.
Defined.



Lemma scanDir_tests_the_file_name_witness :
  In (path_join "pages/posts" "hello.mdx")
     [ "pages/posts/drafts/wip.mdx"; "pages/posts/hello.mdx";
       "pages/posts/semigroups-and-monoids.mdx" ]
  <-> endsWith "hello.mdx" ".mdx" = true.
Proof.
  apply (scanDir_tests_the_file_name "pages/posts" ".mdx" sample_tree).
  - cbn. repeat split; repeat constructor; cbn; intuition discriminate.
  - reflexivity.
  - reflexivity.
  - cbn. tauto.
Defined.

Lemma main_listing_reads_back_witness :
  exists out,
    main (sample_require (Some sample_meta) sample_ast) Date_parse_ISO
         sample_draw sample_entries 1600000000000 (fun _ => 1600000000001)
         no_files = Ok out /\
    exists text posts,
      out exportPath = Some text /\
      listing_default_export text = Some (JArray (map post_data posts)) /\
      out rssPath = Some (sample_draw posts) /\
      forall post, In post posts ->
        exists t, t <= 1600000000000 /\
                  field "date" (post_data post) = JString (toISOString t).
Proof.
  eexists. split; [reflexivity|].
  apply (main_listing_reads_back
           (sample_require (Some sample_meta) sample_ast) Date_parse_ISO
           sample_draw sample_entries 1600000000000
           (fun _ => 1600000000001) no_files).
  reflexivity.
Defined.

Lemma complete_meta_decides_the_record_witness :
  readPostMetadata (sample_require (Some misdated_meta) untitled_ast)
                   Date_parse_ISO 1600000000000 sample_path
  = Ok {| filePath := sample_path;
          urlPath := urlPath_of sample_path;
          title := Some "Notes";
          date := new_Date_from Date_parse_ISO (meta_date misdated_meta);
          description := Some "Misdated notes." |}.
Proof.
  apply (complete_meta_decides_the_record
           (sample_require (Some misdated_meta) untitled_ast) Date_parse_ISO
           1600000000000 sample_path misdated_meta untitled_ast
           "Notes" "Misdated notes." eq_refl eq_refl);
    [discriminate | reflexivity | discriminate].
Defined.
